(** * IndeedBot: the paginated listing extraction pipeline

    A shallow embedding of [IndeedBot.get_job_posts] and
    [IndeedBot.wait_until_visible] (IndeedBot.py), together with the
    Python string operations they use, and the properties of the
    pipeline: total-count discovery, the pagination checkpoint, the
    per-card field extraction with its fall-backs, the detail-panel
    context switch and the CSV record sink.

    The remote site is an input of the model: every answer the browser
    driver gives (which elements a selector finds, when an element
    becomes visible, whether a click goes through) is read from a
    snapshot value, and the theorems quantify over all snapshots. *)

From Stdlib Require Import ZArith List Bool Ascii String Lia DecimalString.
Import ListNotations.
Open Scope string_scope.
Open Scope Z_scope.

(** ** Python strings *)

Module PyStr.

(** [str.strip] removes the characters for which [str.isspace] holds; on
    ASCII these are 9..13, 28..31 and the space. *)
Definition isspace (c : ascii) : bool :=
  let n := nat_of_ascii c in
  ((9 <=? n)%nat && (n <=? 13)%nat) || ((28 <=? n)%nat && (n <=? 32)%nat).

Fixpoint lstrip (s : string) : string :=
  match s with
  | EmptyString => EmptyString
  | String c s' => if isspace c then lstrip s' else s
  end.

Fixpoint rev_onto (s acc : string) : string :=
  match s with
  | EmptyString => acc
  | String c s' => rev_onto s' (String c acc)
  end.

Definition rev (s : string) : string := rev_onto s EmptyString.

Definition rstrip (s : string) : string := rev (lstrip (rev s)).

Definition strip (s : string) : string := rstrip (lstrip s).

(** [str.replace(old, new)]: the non-overlapping occurrences of [old],
    leftmost first.  [skip] counts the characters of a match that are
    still to be dropped. *)
Fixpoint replace_from (old new : string) (skip : nat) (s : string) : string :=
  match s with
  | EmptyString => EmptyString
  | String c s' =>
      match skip with
      | S k => replace_from old new k s'
      | O =>
          if prefix old s
          then new ++ replace_from old new (Nat.pred (String.length old)) s'
          else String c (replace_from old new O s')
      end
  end.

(** With an empty [old] Python puts [new] before every character and at
    the end. *)
Fixpoint intersperse (new s : string) : string :=
  match s with
  | EmptyString => new
  | String c s' => new ++ String c (intersperse new s')
  end.

Definition replace (old new s : string) : string :=
  match old with
  | EmptyString => intersperse new s
  | _ => replace_from old new O s
  end.

Definition isdigit (c : ascii) : bool :=
  let n := nat_of_ascii c in (48 <=? n)%nat && (n <=? 57)%nat.

(** [re.findall(r'\d+', s)]: the maximal runs of digits, left to right.
    [run] is the run being read, most recent digit first. *)
Fixpoint findall_digits_from (run : string) (s : string) : list string :=
  match s with
  | EmptyString =>
      match run with EmptyString => [] | _ => [rev run] end
  | String c s' =>
      if isdigit c then findall_digits_from (String c run) s'
      else match run with
           | EmptyString => findall_digits_from EmptyString s'
           | _ => rev run :: findall_digits_from EmptyString s'
           end
  end.

Definition findall_digits (s : string) : list string :=
  findall_digits_from EmptyString s.

Definition digit_value (c : ascii) : Z := Z.of_nat (nat_of_ascii c) - 48.

Fixpoint int_from (acc : Z) (s : string) : Z :=
  match s with
  | EmptyString => acc
  | String c s' => int_from (10 * acc + digit_value c) s'
  end.

(** [int(s)] for a string of decimal digits, which is all the source
    passes to it (an element of [findall_digits]). *)
Definition int (s : string) : Z := int_from 0 s.

(** [round(n / 10)] for an integer [n >= 0]: Python 3 divides to a float
    and rounds half to even.  For [n] below 2^53 the float quotient is
    on the same side of every half-integer as the exact one, so that
    the result is the integer computation below; above it the two can
    differ, and from 309 digits on the division raises OverflowError. *)
Definition round_div10 (n : Z) : Z :=
  let q := n / 10 in
  let r := n mod 10 in
  if r <? 5 then q
  else if 5 <? r then q + 1
  else if Z.even q then q else q + 1.

(** [str(n)] for an integer. *)
Definition str (n : Z) : string := NilZero.string_of_int (Z.to_int n).

End PyStr.

(** ** Exceptions *)

Inductive exn : Type :=
| TimeoutException
| NoSuchElementException
| IndexError
| WebDriverException.

(** A computation that returns or raises. *)
Definition res (A : Type) : Type := (exn + A)%type.

Definition ret {A} (a : A) : res A := inr a.
Definition raise {A} (e : exn) : res A := inl e.

Definition bind {A B} (m : res A) (k : A -> res B) : res B :=
  match m with
  | inl e => inl e
  | inr a => k a
  end.

Notation "x <- m ;; k" := (bind m (fun x => k))
  (at level 61, m at next level, right associativity).

(** [try: body / except: handler], for a body whose only effect is the
    value it yields. *)
Definition try_except {A} (body : res A) (handler : A) : A :=
  match body with
  | inr a => a
  | inl _ => handler
  end.

(** [xs[i]] *)
Definition index {A} (xs : list A) (i : nat) : res A :=
  match nth_error xs i with
  | Some x => ret x
  | None => raise IndexError
  end.

(** ** The browser driver

    What Selenium answers is read from a document snapshot: which
    elements a locator finds, in document order, and for each element
    its text, its [href], how long after a wait starts it is displayed
    ([None]: never) and whether a pointer move-and-click
    ([ActionChains]) and a plain [click()] on it go through. *)

Inductive By : Type := CSS_SELECTOR | ID | NAME | CLASS_NAME | TAG_NAME.

Record WebElement : Type := {
  text : string;
  href : string;
  displayed_after : option Z;
  hoverable : bool;
  clickable : bool
}.

Definition Dom : Type := By -> string -> list WebElement.

Definition find_elements (dom : Dom) (by_ : By) (value : string)
  : list WebElement := dom by_ value.

Definition find_element (dom : Dom) (by_ : By) (value : string)
  : res WebElement :=
  match dom by_ value with
  | e :: _ => ret e
  | [] => raise NoSuchElementException
  end.

(** [WebDriverWait(driver, duration, frequency).until(
      EC.visibility_of_element_located((by, value)))]:
    polls until the first element the locator finds is displayed and
    raises [TimeoutException] once [duration] has passed.  The poll
    interval ([frequency], 0.01) is taken to its limit: the wait succeeds
    exactly when the element is displayed no later than [duration]. *)
Definition until_visibility_of_element_located
    (dom : Dom) (duration : Z) (by_ : By) (value : string) : res unit :=
  match dom by_ value with
  | e :: _ =>
      match displayed_after e with
      | Some t => if t <=? duration then ret tt else raise TimeoutException
      | None => raise TimeoutException
      end
  | [] => raise TimeoutException
  end.

(** Truth value of an optional string argument: [None] and [''] are false. *)
Definition truthy (o : option string) : bool :=
  match o with
  | Some (String _ _) => true
  | _ => false
  end.

Definition value_of (o : option string) : string :=
  match o with Some s => s | None => EmptyString end.

Definition default_duration : Z := 10000.

(** [IndeedBot.wait_until_visible] *)
Definition wait_until_visible (driver : Dom)
    (css_selector element_id name class_name tag_name : option string)
    (duration : Z) : res unit :=
  if truthy css_selector then
    until_visibility_of_element_located driver duration CSS_SELECTOR (value_of css_selector)
  else if truthy element_id then
    until_visibility_of_element_located driver duration ID (value_of element_id)
  else if truthy name then
    until_visibility_of_element_located driver duration NAME (value_of name)
  else if truthy class_name then
    until_visibility_of_element_located driver duration CLASS_NAME (value_of class_name)
  else if truthy tag_name then
    until_visibility_of_element_located driver duration TAG_NAME (value_of tag_name)
  else ret tt.

(** The call shape every call site of the source uses:
    [self.wait_until_visible(driver, css_selector=..., duration=...)]. *)
Definition wait_css (driver : Dom) (css_selector : string) (duration : Z)
  : res unit :=
  wait_until_visible driver (Some css_selector) None None None None duration.

(** ** Selectors of the results page *)

(** The source writes every selector as a CSS attribute selector,
    [[attr="value"]]. *)
Definition dquote : string := String (ascii_of_nat 34) EmptyString.

Definition attr (a v : string) : string :=
  "[" ++ a ++ "=" ++ dquote ++ v ++ dquote ++ "]".

Definition sel_results_list : string := attr "class" "jobsearch-ResultsList css-0".
Definition sel_job_count : string := attr "class" "jobsearch-JobCountAndSortPane-jobCount".
Definition sel_search_count_pages : string := attr "id" "searchCountPages".
Definition sel_job_seen_beacon : string := attr "class" "job_seen_beacon".
Definition sel_job_title : string := attr "class" "jcs-JobTitle css-jspxzf eu4oa1w0".
Definition sel_salary : string := attr "class" "metadata salary-snippet-container".
Definition sel_company_location : string := attr "class" "companyLocation".
Definition sel_metadata : string := attr "class" "metadata".
Definition sel_date : string := attr "class" "date".
Definition sel_company_name : string := attr "class" "companyName".
Definition sel_iframe : string := attr "id" "vjs-container-iframe".
Definition sel_ratings_count : string := attr "class" "icl-Ratings-count".

(** ** Total-count discovery (lines 200-223) *)

Import PyStr.

(** The text of a count indicator, stripped and parsed (lines 205-210):
    [total_jobs] and [number_of_pages].  [total_jobs[0]] raises when the
    text holds no digit. *)
Definition parse_job_count (indicator : string) : res (string * Z) :=
  let total_jobs :=
    replace "jobs" "" (replace "Page 1 of" "" (replace "," "" indicator)) in
  let total_jobs := findall_digits total_jobs in
  total_jobs <- index total_jobs 0 ;;
  ret (total_jobs, round_div10 (int total_jobs)).

(** The body of one of the two [try] blocks: wait for the indicator,
    then read and parse its text. *)
Definition read_job_count (driver : Dom) (css_selector : string) (duration : Z)
  : res (string * Z) :=
  _ <- wait_css driver css_selector duration ;;
  e <- find_element driver CSS_SELECTOR css_selector ;;
  parse_job_count (text e).

Definition primary_duration : Z := 10.
Definition secondary_duration : Z := 5.
Definition fallback_number_of_pages : Z := 25.

(** [number_of_pages] after the nested [try]/[except] of lines 202-223.
    Every path assigns it, so its first value (5, line 200) is never
    read. *)
Definition number_of_pages (driver : Dom) : Z :=
  try_except (r <- read_job_count driver sel_job_count primary_duration ;; ret (snd r))
    (try_except (r <- read_job_count driver sel_search_count_pages secondary_duration ;; ret (snd r))
       fallback_number_of_pages).

(** ** Session state

    The driver is in the top-level document ([Outer]) or inside the
    detail iframe ([Frame]).  The trace keeps, in the order they happen,
    the commands that move the session (navigation and context
    switches) and the log lines of the two detail-panel blocks; the
    store is the CSV file of the query, [None] while it does not exist,
    otherwise its rows. *)

Inductive Context : Type := Outer | Frame.

Inductive Event : Type :=
| Get (url : string)
| Info (msg : string)
| SwitchToFrame
| SwitchToDefaultContent.

Definition Row : Type := list string.

Record World : Type := {
  context : Context;
  trace : list Event;
  store : option (list Row)
}.

Definition emit (e : Event) (w : World) : World :=
  {| context := context w; trace := (trace w ++ [e])%list; store := store w |}.

Definition info (msg : string) (w : World) : World := emit (Info msg) w.

Definition set_context (c : Context) (w : World) : World :=
  {| context := c; trace := trace w; store := store w |}.

Definition set_store (s : option (list Row)) (w : World) : World :=
  {| context := context w; trace := trace w; store := s |}.

(** A card of the results list: its root element, whether
    [scrollIntoView] on it returns, and what a search among its
    descendants finds. *)
Record Card : Type := {
  root : WebElement;
  scrolls : bool;
  within : Dom
}.

(** What the site shows while one card is processed, and whether the
    two context switches go through. *)
Record CardView : Type := {
  listing : option (list Card);
  top : Dom;
  frame : Dom;
  frame_enters : bool;
  top_returns : bool
}.

(** What the site answers to one navigation: whether the load returns,
    the document it lands on, and for every card the results list
    enumerates (line 238) the view during that card; [None] when there
    is no results list. *)
Record PageView : Type := {
  loads : bool;
  landing : Dom;
  cards : option (list CardView)
}.

(** The site, by URL. *)
Definition Site : Type := string -> PageView.

(** The document the driver searches in. *)
Definition document (cv : CardView) (c : Context) : Dom :=
  match c with
  | Outer => top cv
  | Frame => frame cv
  end.

(** [driver.get(url)]: a load that returns leaves the session in the
    top-level document. *)
Definition driver_get (pv : PageView) (url : string) (w : World)
  : res unit * World :=
  let w := emit (Get url) w in
  if loads pv then (ret tt, set_context Outer w)
  else (raise WebDriverException, w).

(** [driver.switch_to.frame(element)] *)
Definition switch_to_frame (cv : CardView) (element : WebElement) (w : World)
  : res unit * World :=
  let w := emit SwitchToFrame w in
  if frame_enters cv then (ret tt, set_context Frame w)
  else (raise WebDriverException, w).

(** [driver.switch_to.default_content()]: selects the top-level
    document when the command goes through, and leaves the context as
    it is when it raises. *)
Definition switch_to_default_content (cv : CardView) (w : World)
  : res unit * World :=
  let w := emit SwitchToDefaultContent w in
  if top_returns cv then (ret tt, set_context Outer w)
  else (raise WebDriverException, w).

(** ** The local variables a card assigns

    They are set to [''] once per page (line 236), before the loop over
    the cards.  ([contact] is never assigned again nor read.) *)
Record Vars : Type := {
  job_title : string;
  company_name : string;
  location : string;
  salary : string;
  job_type : string;
  date_posted : string;
  reviews : string;
  job_url : string;
  listing_url : string
}.

Definition blank : Vars :=
  {| job_title := ""; company_name := ""; location := ""; salary := "";
     job_type := ""; date_posted := ""; reviews := ""; job_url := "";
     listing_url := "" |}.

(** The [job_post] dict of lines 322-324, in insertion order. *)
Definition job_post (v : Vars) : list (string * string) :=
  [ ("Job Title", job_title v); ("Salary", salary v); ("Job Type", job_type v);
    ("Location", location v); ("Company Name", company_name v);
    ("Date Posted", date_posted v); ("Reviews", reviews v);
    ("Job URL", job_url v); ("Listing URL", listing_url v) ].

(** [job_post[key]] *)
Fixpoint getitem (d : list (string * string)) (key : string) : option string :=
  match d with
  | [] => None
  | (k, x) :: d' => if String.eqb k key then Some x else getitem d' key
  end.

(** ** Record sink (lines 326-331)

    [pd.DataFrame([job_post])] has one column per key, in key order;
    [to_csv(index=False)] writes the header row and the record,
    [to_csv(mode='a', header=False, index=False)] the record only.
    The store is a file of complete rows, each ended by its line
    terminator, as every file this program writes is; a record appended
    to it starts a row of its own. *)
Definition columns (d : list (string * string)) : Row := map fst d.
Definition values (d : list (string * string)) : Row := map snd d.

Definition save_job_post (d : list (string * string)) (w : World) : World :=
  match store w with
  | None => set_store (Some [columns d; values d]) w
  | Some rows => set_store (Some (rows ++ [values d])%list) w
  end.

(** ** One card (lines 241-332) *)

Definition newline : string := String (ascii_of_nat 10) EmptyString.

(** Line 241: the card is looked up again by its index. *)
Definition relocate (cv : CardView) (i : nat) : res Card :=
  match listing cv with
  | None => raise NoSuchElementException
  | Some found => index found i
  end.

(** Line 243 *)
Definition scroll_into_view (job : Card) : res unit :=
  if scrolls job then ret tt else raise WebDriverException.

(** [actions.move_to_element(e); actions.click(e).perform()] *)
Definition move_and_click (e : WebElement) : res unit :=
  if hoverable e then ret tt else raise WebDriverException.

(** [e.click()] *)
Definition click (e : WebElement) : res unit :=
  if clickable e then ret tt else raise WebDriverException.

(** Lines 246-262: two best-effort attempts to select the card, each on
    the card and then on the card nested in it.  The result tells which
    attempt went through; nothing reads it. *)
Definition select_card (job : Card) : bool * bool :=
  let first :=
    try_except (_ <- move_and_click (root job) ;; ret true)
      (try_except
         (job_card <- find_element (within job) CSS_SELECTOR sel_job_seen_beacon ;;
          _ <- move_and_click job_card ;; ret true)
         false) in
  let second :=
    try_except (_ <- click (root job) ;; ret true)
      (try_except
         (job_card <- find_element (within job) CSS_SELECTOR sel_job_seen_beacon ;;
          _ <- click job_card ;; ret true)
         false) in
  (first, second).

(** The bodies of the [try] blocks of lines 265-298, each on its own. *)
Definition read_job_title (driver : Dom) (i : nat) : res string :=
  e <- index (find_elements driver CSS_SELECTOR sel_job_title) i ;;
  ret (text e).

Definition read_listing_url (driver : Dom) (i : nat) : res string :=
  e <- index (find_elements driver CSS_SELECTOR sel_job_title) i ;;
  ret (href e).

Definition read_salary (driver : Dom) (i : nat) : res string :=
  e <- index (find_elements driver CSS_SELECTOR sel_salary) i ;;
  ret (replace newline " " (strip (text e))).

Definition read_location (driver : Dom) (i : nat) : res string :=
  e <- index (find_elements driver CSS_SELECTOR sel_company_location) i ;;
  ret (replace newline " " (strip (text e))).

Definition read_job_type (driver : Dom) (i : nat) : res string :=
  e <- index (find_elements driver CSS_SELECTOR sel_metadata) i ;;
  ret (strip (replace "Job type" "" (replace ":" ""
         (replace newline " " (strip (text e)))))).

Definition read_date_posted (driver : Dom) (i : nat) : res string :=
  _ <- wait_css driver sel_date 3 ;;
  e <- index (find_elements driver CSS_SELECTOR sel_date) i ;;
  ret (replace "Posted" "" (replace newline " " (strip (text e)))).

(** Lines 291-296: the company name is searched inside the card, after a
    wait with the default duration; [job_url = listing_url] is the last
    statement of the same [try] block. *)
Definition read_company (driver : Dom) (job : Card) (listing_url : string)
  : res (string * string) :=
  _ <- wait_until_visible driver (Some sel_company_name) None None None None
         default_duration ;;
  e <- find_element (within job) CSS_SELECTOR sel_company_name ;;
  ret (text e, listing_url).

Definition read_reviews (driver : Dom) : res string :=
  _ <- wait_css driver sel_ratings_count 3 ;;
  e <- find_element driver CSS_SELECTOR sel_ratings_count ;;
  ret (text e).

(** *** Detail panel (lines 299-320) *)

Definition msg_waiting_iframe : string := "Waiting for job side panel iframe".
Definition msg_iframe_found : string := "Iframe found".
Definition msg_switched : string := "Switched to iframe".
Definition msg_iframe_not_found : string := "Iframe not found".
Definition msg_switching_back : string := "Switching back from iframe".
Definition msg_switched_back : string := "Switched back from iframe".

(** The [try] body of lines 300-305; what it logged and switched before
    an exception stays. *)
Definition enter_detail_body (cv : CardView) (w : World) : res unit * World :=
  let w := info msg_waiting_iframe w in
  match wait_css (document cv (context w)) sel_iframe 5 with
  | inl e => (inl e, w)
  | inr _ =>
      let w := info msg_iframe_found w in
      match find_element (document cv (context w)) CSS_SELECTOR sel_iframe with
      | inl e => (inl e, w)
      | inr element =>
          match switch_to_frame cv element w with
          | (inl e, w) => (inl e, w)
          | (inr _, w) => (ret tt, info msg_switched w)
          end
      end
  end.

Definition enter_detail_context (cv : CardView) (w : World) : World :=
  match enter_detail_body cv w with
  | (inr _, w) => w
  | (inl _, w) => info msg_iframe_not_found w
  end.

(** The [try] body of lines 315-318. *)
Definition exit_detail_body (cv : CardView) (w : World) : res unit * World :=
  let w := info msg_switching_back w in
  match switch_to_default_content cv w with
  | (inl e, w) => (inl e, w)
  | (inr _, w) => (ret tt, info msg_switched_back w)
  end.

Definition exit_detail_context (cv : CardView) (w : World) : World :=
  match exit_detail_body cv w with
  | (inr _, w) => w
  | (inl _, w) => w
  end.

(** Lines 264-320: the fields of the card, one [try] block after the
    other, and the session after the visit to the detail panel.  A
    block that raises keeps the value its variable had ([except: pass])
    or assigns the default its [except] names. *)
Definition extract_fields (cv : CardView) (i : nat) (job : Card) (v : Vars)
    (w : World) : Vars * World :=
  let driver := document cv (context w) in
  let job_title := try_except (read_job_title driver i) (job_title v) in
  let listing_url := try_except (read_listing_url driver i) (listing_url v) in
  let salary := try_except (read_salary driver i) (salary v) in
  let location := try_except (read_location driver i) (location v) in
  let job_type := try_except (read_job_type driver i) "Full-Time" in
  let date_posted := try_except (read_date_posted driver i) "Today" in
  let company :=
    try_except (read_company driver job listing_url) (company_name v, job_url v) in
  let company_name := fst company in
  let job_url := snd company in
  let w := enter_detail_context cv w in
  let reviews :=
    try_except (read_reviews (document cv (context w))) "Reviews Not Found" in
  let w := exit_detail_context cv w in
  ({| job_title := job_title; company_name := company_name;
      location := location; salary := salary; job_type := job_type;
      date_posted := date_posted; reviews := reviews; job_url := job_url;
      listing_url := listing_url |}, w).

(** The body of the loop over the cards.  The two statements before the
    first [try] (lines 241 and 243) raise out of the loop; everything
    after them is inside a [try] with a bare [except]. *)
Definition card_body (cv : CardView) (i : nat) (v : Vars) (w : World)
  : res Vars * World :=
  match relocate cv i with
  | inl e => (inl e, w)
  | inr job =>
  match scroll_into_view job with
  | inl e => (inl e, w)
  | inr _ =>
      let _selected := select_card job in
      let (v, w) := extract_fields cv i job v w in
      (ret v, save_job_post (job_post v) w)
  end
  end.

(** The loop of line 238 over the enumerated cards. *)
Fixpoint for_cards (cvs : list CardView) (i : nat) (v : Vars) (w : World)
  : option exn * Vars * World :=
  match cvs with
  | [] => (None, v, w)
  | cv :: rest =>
      match card_body cv i v w with
      | (inl e, w) => (Some e, v, w)
      | (inr v, w) => for_cards rest (S i) v w
      end
  end.

(** ** The page loop (lines 224-238) *)

Record Pagination : Type := {
  job_count : Z;
  pages_scraped : Z;
  jobs_scraped : Z
}.

(** Lines 224-226 *)
Definition checkpoint : Pagination :=
  {| job_count := 1510; pages_scraped := 151; jobs_scraped := 151 * 15 |}.

Definition advance (p : Pagination) : Pagination :=
  {| job_count := job_count p + 10;
     pages_scraped := pages_scraped p + 1;
     jobs_scraped := jobs_scraped p + 15 |}.

Definition page_url (city : string) (job_count : Z) : string :=
  "https://ca.indeed.com/jobs?q=&l=" ++ city ++ "&start=" ++ str job_count.

(** The body of the loop over the pages.  An exception of the
    navigation, of the wait for the results list or of a card leaves
    the loop and [get_job_posts].  The pause after the load and the two
    progress lines (lines 230-232) change nothing the model keeps; the
    lines cannot raise, since [total_jobs] is bound whenever
    [number_of_pages] exceeds the checkpoint. *)
Definition page_body (site : Site) (city : string) (p : Pagination) (w : World)
  : option exn * Pagination * World :=
  let url := page_url city (job_count p) in
  match driver_get (site url) url w with
  | (inl e, w) => (Some e, p, w)
  | (inr _, w) =>
      let p := advance p in
      match wait_css (landing (site url)) sel_results_list 30 with
      | inl e => (Some e, p, w)
      | inr _ =>
          match cards (site url) with
          | None => (Some NoSuchElementException, p, w)
          | Some cvs =>
              match for_cards cvs O blank w with
              | (o, _, w) => (o, p, w)
              end
          end
      end
  end.

(** [range(start, stop)] *)
Definition range (start stop : Z) : list Z :=
  map (fun k => start + Z.of_nat k) (seq 0 (Z.to_nat (stop - start))).

(** [for page in pages: ...] *)
Fixpoint for_pages (site : Site) (city : string) (pages : list Z)
    (p : Pagination) (w : World) : option exn * Pagination * World :=
  match pages with
  | [] => (None, p, w)
  | _ :: rest =>
      match page_body site city p w with
      | (Some e, p, w) => (Some e, p, w)
      | (None, p, w) => for_pages site city rest p w
      end
  end.

(** Lines 224-227: the loop starts from the checkpoint; the range is
    built once, from the checkpoint's [pages_scraped]. *)
Definition page_loop (site : Site) (city : string) (number_of_pages : Z)
    (w : World) : option exn * Pagination * World :=
  for_pages site city (range (pages_scraped checkpoint) number_of_pages)
    checkpoint w.

(** ** [get_job_posts] *)

Definition url_final (city : string) : string :=
  "https://ca.indeed.com/jobs?q=&l=" ++ city ++ "&start=0".

(** A new driver session is in the top-level document. *)
Definition new_session (file_city : option (list Row)) : World :=
  {| context := Outer; trace := []; store := file_city |}.

(** The method from line 190 on, once the driver of line 189 has
    started and shows [site]; the start itself, which can raise, is
    [get_job_posts_with_driver] below. *)
Definition get_job_posts (site : Site) (city : string)
    (file_city : option (list Row)) : option exn * World :=
  let w := new_session file_city in
  let url := url_final city in
  match driver_get (site url) url w with
  | (inl e, w) => (Some e, w)
  | (inr _, w) =>
      match wait_css (landing (site url)) sel_results_list 30 with
      | inl e => (Some e, w)
      | inr _ =>
          match page_loop site city (number_of_pages (landing (site url))) w with
          | (o, _, w) => (o, w)
          end
      end
  end.

(** ** Observations

    The first element a selector finds is displayed within [duration]. *)
Definition displayed_within (driver : Dom) (css_selector : string)
    (duration : Z) : Prop :=
  exists e rest t,
    find_elements driver CSS_SELECTOR css_selector = e :: rest /\
    displayed_after e = Some t /\ t <= duration.

(** Events of a trace: an attempt to enter the detail context is the
    [try] block of line 299, which opens with its log line; an entry is
    the switch into the frame; an exit is the switch back to the
    top-level document; a navigation is a page load. *)
Definition is_entry_attempt (e : Event) : bool :=
  match e with
  | Info msg => String.eqb msg msg_waiting_iframe
  | _ => false
  end.

Definition is_entry (e : Event) : bool :=
  match e with SwitchToFrame => true | _ => false end.

Definition is_exit (e : Event) : bool :=
  match e with SwitchToDefaultContent => true | _ => false end.

Definition is_navigation (e : Event) : bool :=
  match e with Get _ => true | _ => false end.

Definition count (f : Event -> bool) (t : list Event) : nat :=
  List.length (filter f t).

(** The rows of the store; a store that does not exist has none. *)
Definition rows (w : World) : list Row :=
  match store w with
  | None => []
  | Some r => r
  end.

(** The header row of the CSV file. *)
Definition header : Row :=
  [ "Job Title"; "Salary"; "Job Type"; "Location"; "Company Name";
    "Date Posted"; "Reviews"; "Job URL"; "Listing URL" ].

(** The page loop as the design words it: it ends once
    [pages_scraped >= number_of_pages] and does one more page otherwise;
    an exception of a page is fatal for the query and propagates.
    [fuel] bounds the number of pages; [None] means it ran out. *)
Fixpoint pages_loop_spec (site : Site) (city : string) (number_of_pages : Z)
    (fuel : nat) (p : Pagination) (w : World) {struct fuel}
  : option (option exn * Pagination * World) :=
  if number_of_pages <=? pages_scraped p then Some (None, p, w)
  else
    match fuel with
    | O => None
    | S fuel =>
        match page_body site city p w with
        | (Some e, p, w) => Some (Some e, p, w)
        | (None, p, w) => pages_loop_spec site city number_of_pages fuel p w
        end
    end.

(** The two counters of the checkpoint move together. *)
Definition in_lockstep (p : Pagination) : Prop :=
  job_count p = 10 * pages_scraped p.

(** The session has seen as many exit calls as attempts to enter, and
    no more entries than exit calls. *)
Definition paired (w : World) : Prop :=
  count is_exit (trace w) = count is_entry_attempt (trace w) /\
  (count is_entry (trace w) <= count is_exit (trace w))%nat.

(** Appending postings to the store, one after the other. *)
Definition save_all (ds : list (list (string * string))) (w : World) : World :=
  fold_left (fun w d => save_job_post d w) ds w.

(** ** Example sites *)

Module Examples.

(** An element that is displayed at once and takes every click. *)
Definition elem (t h : string) : WebElement :=
  {| text := t; href := h; displayed_after := Some 0;
     hoverable := true; clickable := true |}.

(** An element that is displayed only after [t] time units. *)
Definition late (t : Z) (e : WebElement) : WebElement :=
  {| text := text e; href := href e; displayed_after := Some t;
     hoverable := hoverable e; clickable := clickable e |}.

Fixpoint lookup (l : list (string * list WebElement)) (value : string)
  : list WebElement :=
  match l with
  | [] => []
  | (k, es) :: l' => if String.eqb k value then es else lookup l' value
  end.

(** A document given by what each CSS selector finds. *)
Definition dom_of (l : list (string * list WebElement)) : Dom :=
  fun by_ value =>
    match by_ with
    | CSS_SELECTOR => lookup l value
    | _ => []
    end.

Definition empty_dom : Dom := dom_of [].

(** Scenario A: the primary indicator is on the page. *)
Definition dom_1234 : Dom :=
  dom_of [ (sel_results_list, [elem "" ""]);
           (sel_job_count, [elem "1,234 jobs Page 1 of" ""]) ].

(** The primary indicator is displayed after 20 time units; there is no
    legacy indicator. *)
Definition dom_slow : Dom :=
  dom_of [ (sel_results_list, [elem "" ""]);
           (sel_job_count, [late 20 (elem "3,000 jobs" "")]) ].

(** Only the legacy indicator is on the page. *)
Definition dom_legacy : Dom :=
  dom_of [ (sel_results_list, [elem "" ""]);
           (sel_search_count_pages, [late 4 (elem "Page 1 of 2,345 jobs" "")]) ].

(** A results page with two cards on which only the first card has a
    title link, a salary and a company name. *)
Definition card_acme : Card :=
  {| root := elem "" ""; scrolls := true;
     within := dom_of [ (sel_company_name, [elem "Acme" ""]) ] |}.

Definition card_bare : Card :=
  {| root := elem "" ""; scrolls := true; within := empty_dom |}.

Definition top_two : Dom :=
  dom_of [ (sel_results_list, [elem "" ""]);
           (sel_job_title, [elem "Welder" "https://ca.indeed.com/rc/clk?jk=1"]);
           (sel_salary, [elem "$30 an hour" ""]);
           (sel_company_location, [elem "Toronto, ON" ""; elem "Ottawa, ON" ""]);
           (sel_metadata, [elem "Job type: Part-time" ""; elem "Contract" ""]);
           (sel_date, [elem "Posted 3 days ago" ""; elem "Posted 30+ days ago" ""]);
           (sel_company_name, [elem "Acme" ""]) ].

Definition view_two : CardView :=
  {| listing := Some [card_acme; card_bare]; top := top_two;
     frame := empty_dom; frame_enters := false; top_returns := true |}.

Definition page_two : PageView :=
  {| loads := true; landing := top_two; cards := Some [view_two; view_two] |}.

(** A page with one card that has a title link but no company name, and
    whose detail iframe holds a ratings count. *)
Definition top_anon : Dom :=
  dom_of [ (sel_results_list, [elem "" ""]);
           (sel_job_title, [elem "Driver" "https://ca.indeed.com/rc/clk?jk=7"]);
           (sel_iframe, [elem "" ""]) ].

Definition view_anon : CardView :=
  {| listing := Some [card_bare]; top := top_anon;
     frame := dom_of [ (sel_ratings_count, [elem "1,024 reviews" ""]) ];
     frame_enters := true; top_returns := true |}.

(** Two cards whose detail iframe is entered; on [view_stuck] the
    switch back to the top-level document raises. *)
Definition view_framed : CardView :=
  {| listing := Some [card_bare; card_acme]; top := top_anon;
     frame := dom_of [ (sel_ratings_count, [elem "1,024 reviews" ""]) ];
     frame_enters := true; top_returns := true |}.

Definition view_stuck : CardView :=
  {| listing := Some [card_bare; card_acme]; top := top_anon;
     frame := dom_of [ (sel_ratings_count, [elem "1,024 reviews" ""]) ];
     frame_enters := true; top_returns := false |}.

Definition page_anon : PageView :=
  {| loads := true; landing := top_anon; cards := Some [view_anon] |}.

(** A site whose search page announces 1,530 jobs: pages 151 and 152
    are fetched. *)
Definition search_1530 : PageView :=
  {| loads := true;
     landing := dom_of [ (sel_results_list, [elem "" ""]);
                         (sel_job_count, [elem "1,530 jobs" ""]) ];
     cards := None |}.

Definition site_1530 : Site :=
  fun url =>
    if String.eqb url (url_final "Toronto") then search_1530
    else if String.eqb url (page_url "Toronto" 1510) then page_two
    else page_anon.

(** A site on which no count indicator ever shows. *)
Definition site_plain : Site :=
  fun _ => {| loads := true;
              landing := dom_of [ (sel_results_list, [elem "" ""]) ];
              cards := Some [view_anon] |}.

End Examples.

(** ** The effect of a run on a session

    [extend c l vs w]: the session [w] after the events [l] and the
    postings [vs], in the context [c]. *)
Definition extend (c : Context) (l : list Event) (vs : list Vars) (w : World)
  : World :=
  {| context := c; trace := (trace w ++ l)%list;
     store := store (save_all (map job_post vs) w) |}.

(** The navigations of a trace. *)
Definition navigations (t : list Event) : list Event := filter is_navigation t.

(** The loads of [m] pages in a row, from the offset [start]. *)
Definition page_loads (city : string) (start : Z) (m : nat) : list Event :=
  map (fun k => Get (page_url city (start + 10 * Z.of_nat k))) (seq 0 m).

(** The context a card that is processed leaves the session in, when
    it found it in the context [c]: where the visit to the detail
    panel ends. *)
Definition context_after (cv : CardView) (c : Context) : Context :=
  context (exit_detail_context cv
             (enter_detail_context cv
                {| context := c; trace := []; store := None |})).

(** The value a variable whose [except] is [pass] holds after the cards
    [cvs], numbered from [i] and met in the context [c], when it held
    [init] before them: each card whose block returns assigns it, each
    card whose block raises leaves it. *)
Fixpoint carried (read : Dom -> nat -> res string) (cvs : list CardView)
    (i : nat) (c : Context) (init : string) : string :=
  match cvs with
  | [] => init
  | cv :: rest =>
      carried read rest (S i) (context_after cv c)
        (try_except (read (document cv c) i) init)
  end.

(** The context after the cards [cvs], from the context [c]. *)
Fixpoint context_after_all (cvs : list CardView) (c : Context) : Context :=
  match cvs with
  | [] => c
  | cv :: rest => context_after_all rest (context_after cv c)
  end.

(** ** Files the program has written

    [to_csv] ends every row it writes with a line terminator and
    appends to the bytes that are there.  A destination file that only
    queries of the program have written to is therefore a sequence of
    complete rows, which is what [store] holds; a file of another
    origin whose last line is not terminated is not, and is outside
    the statements made of [program_file]s. *)
Inductive program_file : option (list Row) -> Prop :=
| never_written : program_file None
| written_by_query (site : Site) (city : string) (file_city : option (list Row)) :
    program_file file_city ->
    program_file (store (snd (get_job_posts site city file_city))).

(** ** Observations on strings *)

(** The character [c] occurs in [s]. *)
Fixpoint occurs (c : ascii) (s : string) : bool :=
  match s with
  | EmptyString => false
  | String c' s' => Ascii.eqb c c' || occurs c s'
  end.

(** Every character of [s] satisfies [f]. *)
Fixpoint every (f : ascii -> bool) (s : string) : bool :=
  match s with
  | EmptyString => true
  | String c s' => f c && every f s'
  end.

(** [s] with every [a] replaced by [b], and with every [a] removed. *)
Fixpoint subst_char (a b : ascii) (s : string) : string :=
  match s with
  | EmptyString => EmptyString
  | String c s' => String (if Ascii.eqb a c then b else c) (subst_char a b s')
  end.

Fixpoint without (a : ascii) (s : string) : string :=
  match s with
  | EmptyString => EmptyString
  | String c s' => if Ascii.eqb a c then without a s' else String c (without a s')
  end.

(** A character of the ASCII range.  On ASCII text the digits of
    [\d] and of [int()] and the white space of [str.strip] are those of
    [isdigit] and [isspace]. *)
Definition is_ascii (c : ascii) : bool := (nat_of_ascii c <? 128)%nat.

(** [s] does not start with white space; [s] has no white space at
    either end. *)
Definition starts_clean (s : string) : Prop :=
  match s with
  | EmptyString => True
  | String c _ => isspace c = false
  end.

Definition trimmed (s : string) : Prop := strip s = s.

Definition line_feed : ascii := ascii_of_nat 10.
Definition colon : ascii := ascii_of_nat 58.
Definition comma : ascii := ascii_of_nat 44.

(** The normalised variables of a card hold no line feed, the job type
    no colon either, and salary, location and job type no white space at
    their ends. *)
Definition normalised (v : Vars) : Prop :=
  (occurs line_feed (salary v) = false /\ trimmed (salary v)) /\
  (occurs line_feed (location v) = false /\ trimmed (location v)) /\
  (occurs line_feed (job_type v) = false /\
   occurs colon (job_type v) = false /\ trimmed (job_type v)) /\
  occurs line_feed (date_posted v) = false.

(** The same, read off a row of the file: the cells under Salary,
    Job Type, Location and Date Posted. *)
Definition clean_row (row : Row) : Prop :=
  (occurs line_feed (nth 1 row "") = false /\ trimmed (nth 1 row "")) /\
  (occurs line_feed (nth 3 row "") = false /\ trimmed (nth 3 row "")) /\
  (occurs line_feed (nth 2 row "") = false /\
   occurs colon (nth 2 row "") = false /\ trimmed (nth 2 row "")) /\
  occurs line_feed (nth 5 row "") = false.

(** ** A query from its first statement (lines 188-189)

    [get_job_posts] above is the method from line 190 on, in a browser
    that shows [site].  Line 189 starts that browser:
    [self.get_driver()] reads the user-agent file, builds the options
    and starts Chrome, and each of these can raise.  [driver] is what
    the call comes to: the exception it raised, before anything is
    requested or written, or a browser on the site. *)
Definition get_job_posts_with_driver (driver : res Site) (city : string)
    (file_city : option (list Row)) : option exn * World :=
  match driver with
  | inl e => (Some e, new_session file_city)
  | inr site => get_job_posts site city file_city
  end.

(** The path of line 188, below the project root. *)
Definition file_city_path (city : string) : string :=
  "IndeedRes/" ++ city ++ ".csv".

(** ** The run over the cities (lines 334-343)

    One destination per city, [IndeedRes/<city>.csv]; the cities are
    the [City] column of the input, in file order.  Each query gets
    what its driver start and the site give while it runs.  An
    exception of a query is not caught: it ends the run.

    Two paths can name one file (a city written [./Toronto], letter
    case on a file system that ignores it): [resolve] sends a path to
    the file it names, and the files are keyed by that. *)
Definition Files : Type := string -> option (list Row).

Definition write_file (file : string) (s : option (list Row)) (fs : Files)
  : Files :=
  fun f => if String.eqb f file then s else fs f.

Section Run.

Variable resolve : string -> string.

Definition file_of (city : string) : string := resolve (file_city_path city).

Fixpoint main (queries : list (string * res Site)) (fs : Files)
  : option exn * Files :=
  match queries with
  | [] => (None, fs)
  | (city, driver) :: rest =>
      match get_job_posts_with_driver driver city (fs (file_of city)) with
      | (Some e, w) => (Some e, write_file (file_of city) (store w) fs)
      | (None, w) => main rest (write_file (file_of city) (store w) fs)
      end
  end.

End Run.

(** ** Closing the browser (lines 165-171)

    [finish] catches [WebDriverException] and its subclasses, which
    [TimeoutException] and [NoSuchElementException] are; any other
    exception passes through. *)
Definition is_webdriver_exception (e : exn) : bool :=
  match e with
  | IndexError => false
  | _ => true
  end.

Inductive BrowserEvent : Type :=
| Logged (msg : string)
| DriverClose
| DriverQuit.

(** What [driver.close()] and [driver.quit()] do in a session. *)
Record Browser : Type := {
  closes : res unit;
  quits : res unit
}.

Definition msg_closing : string := "Closing browser".
Definition msg_issue : string := "Issue while closing browser".

(** The [try] body of lines 167-169, with the calls it made. *)
Definition finish_body (driver : Browser) : res unit * list BrowserEvent :=
  match closes driver with
  | inl e => (inl e, [Logged msg_closing; DriverClose])
  | inr _ =>
      match quits driver with
      | inl e => (inl e, [Logged msg_closing; DriverClose; DriverQuit])
      | inr _ => (ret tt, [Logged msg_closing; DriverClose; DriverQuit])
      end
  end.

Definition finish (driver : Browser) : res unit * list BrowserEvent :=
  match finish_body driver with
  | (inl e, t) =>
      if is_webdriver_exception e then (ret tt, (t ++ [Logged msg_issue])%list)
      else (inl e, t)
  | (inr _, t) => (ret tt, t)
  end.

(** ** More example sites *)

Module Samples.

(** The view of a second card on a page that shows a single title link
    and none of the other page-wide elements; the detail iframe holds a
    ratings count. *)
Definition view_second : CardView :=
  {| listing := Some [Examples.card_acme; Examples.card_bare];
     top := Examples.top_anon;
     frame := Examples.dom_of
                [ (sel_ratings_count, [Examples.elem "1,024 reviews" ""]) ];
     frame_enters := true; top_returns := true |}.

(** A site that does not answer. *)
Definition site_down : Site :=
  fun _ => {| loads := false; landing := Examples.empty_dom; cards := None |}.

(** No destination file yet. *)
Definition no_files : Files := fun _ => None.

(** Every path names a file of its own. *)
Definition same_path : string -> string := fun path => path.

(** The files after a first query of Toronto. *)
Definition toronto_written : Files :=
  write_file "IndeedRes/Toronto.csv"
    (store (snd (get_job_posts Examples.site_1530 "Toronto" None)))
    no_files.

(** A browser whose window is already gone: [close()] raises. *)
Definition browser_gone : Browser :=
  {| closes := raise WebDriverException; quits := ret tt |}.

End Samples.

(** ** Waiting *)

Lemma wait_css_attr (driver : Dom) (a v : string) (duration : Z) :
  wait_css driver (attr a v) duration =
  until_visibility_of_element_located driver duration CSS_SELECTOR (attr a v).
Proof. reflexivity. Qed.

Lemma wait_css_returns (driver : Dom) (a v : string) (duration : Z) :
  wait_css driver (attr a v) duration = ret tt <->
  displayed_within driver (attr a v) duration.
Proof.
  rewrite wait_css_attr.
  unfold until_visibility_of_element_located, displayed_within, find_elements.
  split.
  - destruct (driver CSS_SELECTOR (attr a v)) as [|e rest]; [discriminate|].
    destruct (displayed_after e) as [t|] eqn:Ht; [|discriminate].
    destruct (t <=? duration) eqn:Hle; [|discriminate].
    intros _. exists e, rest, t. repeat split; auto. now apply Z.leb_le.
  - intros (e & rest & t & -> & -> & Hle).
    apply Z.leb_le in Hle. now rewrite Hle.
Qed.

Lemma wait_css_times_out (driver : Dom) (a v : string) (duration : Z) :
  ~ displayed_within driver (attr a v) duration ->
  wait_css driver (attr a v) duration = raise TimeoutException.
Proof.
  intros Hno. rewrite wait_css_attr.
  unfold until_visibility_of_element_located.
  destruct (driver CSS_SELECTOR (attr a v)) as [|e rest] eqn:Hf; [reflexivity|].
  destruct (displayed_after e) as [t|] eqn:Ht; [|reflexivity].
  destruct (t <=? duration) eqn:Hle; [|reflexivity].
  exfalso. apply Hno. exists e, rest, t. repeat split; auto. now apply Z.leb_le.
Qed.

(** A wait either returns or raises [TimeoutException]. *)
Lemma wait_css_cases (driver : Dom) (a v : string) (duration : Z) :
  wait_css driver (attr a v) duration = ret tt \/
  wait_css driver (attr a v) duration = raise TimeoutException.
Proof.
  rewrite wait_css_attr. unfold until_visibility_of_element_located.
  destruct (driver CSS_SELECTOR (attr a v)) as [|e rest]; auto.
  destruct (displayed_after e); auto.
  destruct (_ <=? _); auto.
Qed.

(** What a count block yields once its indicator is displayed in time. *)
Lemma read_job_count_displayed (driver : Dom) (a v : string) (duration : Z)
    (e : WebElement) (rest : list WebElement) (t : Z) :
  find_elements driver CSS_SELECTOR (attr a v) = e :: rest ->
  displayed_after e = Some t -> t <= duration ->
  read_job_count driver (attr a v) duration = parse_job_count (text e).
Proof.
  intros Hf Ht Hle. unfold read_job_count.
  assert (Hw : wait_css driver (attr a v) duration = ret tt).
  { apply wait_css_returns. now exists e, rest, t. }
  rewrite Hw. cbn [bind ret]. unfold find_element.
  unfold find_elements in Hf. now rewrite Hf.
Qed.

Lemma read_job_count_timeout (driver : Dom) (a v : string) (duration : Z) :
  wait_css driver (attr a v) duration = raise TimeoutException ->
  read_job_count driver (attr a v) duration = raise TimeoutException.
Proof. intros Hw. unfold read_job_count. now rewrite Hw. Qed.

(** ** Total-count discovery *)

(** C6. The primary count-indicator text "1,234 jobs Page 1 of" parses
    to total_jobs "1234", the integer 1234, and number_of_pages
    round(1234 / 10) = 123; a search page whose primary indicator is
    displayed in time with that text gets 123 pages. *)
Theorem total_count_scenario_A :
  parse_job_count "1,234 jobs Page 1 of" = ret ("1234", 123) /\
  int "1234" = 1234 /\
  round_div10 1234 = 123 /\
  forall (driver : Dom) (e : WebElement) (rest : list WebElement) (t : Z),
    find_elements driver CSS_SELECTOR sel_job_count = e :: rest ->
    text e = "1,234 jobs Page 1 of" ->
    displayed_after e = Some t -> t <= primary_duration ->
    read_job_count driver sel_job_count primary_duration = ret ("1234", 123) /\
    number_of_pages driver = 123.
Proof.
  split; [reflexivity|]. split; [reflexivity|]. split; [reflexivity|].
  intros driver e rest t Hf Htext Ht Hle.
  assert (Hr : read_job_count driver sel_job_count primary_duration
               = ret ("1234", 123)).
  { unfold sel_job_count in *.
    rewrite (read_job_count_displayed _ _ _ _ e rest t Hf Ht Hle).
    now rewrite Htext. }
  split; [exact Hr|].
  unfold number_of_pages. now rewrite Hr.
Qed.

Lemma total_count_scenario_A_witness :
  number_of_pages Examples.dom_1234 = 123.
Proof.
  destruct total_count_scenario_A as (_ & _ & _ & H).
  apply (H Examples.dom_1234
           (Examples.elem "1,234 jobs Page 1 of" "") [] 0);
    [reflexivity | reflexivity | reflexivity | unfold primary_duration; lia].
Defined.

(** C7. When the wait for the primary count indicator times out and the
    wait for the legacy indicator times out too, number_of_pages is the
    fixed default 25. *)
Theorem total_count_scenario_B (driver : Dom) :
  wait_css driver sel_job_count primary_duration = raise TimeoutException ->
  wait_css driver sel_search_count_pages secondary_duration = raise TimeoutException ->
  number_of_pages driver = 25.
Proof.
  intros H1 H2. unfold number_of_pages.
  unfold sel_job_count, sel_search_count_pages in *.
  rewrite (read_job_count_timeout _ _ _ _ H1).
  rewrite (read_job_count_timeout _ _ _ _ H2).
  reflexivity.
Qed.

Lemma total_count_scenario_B_witness :
  number_of_pages Examples.empty_dom = 25.
Proof.
  apply total_count_scenario_B; reflexivity.
Defined.

(** C9, as stated, fails: a primary count indicator that is displayed
    after 20 time units, within the 30 the claim gives it, and that
    reads 3,000 jobs is not waited for; discovery times out on it after
    10 and, with no legacy indicator, ends on the default 25. *)
Lemma primary_wait_is_not_30 :
  displayed_within Examples.dom_slow sel_job_count 30 /\
  read_job_count Examples.dom_slow sel_job_count 30 = ret ("3000", 300) /\
  wait_css Examples.dom_slow sel_job_count primary_duration
    = raise TimeoutException /\
  number_of_pages Examples.dom_slow = 25.
Proof.
  split.
  - exists (Examples.late 20 (Examples.elem "3,000 jobs" "")), [], 20.
    repeat split. lia.
  - repeat split.
Qed.

(** C9, amended. Total-count discovery waits up to 10 time units for
    the primary count indicator and up to 5 for the legacy one: an
    indicator displayed within its duration is read and parsed, a primary
    indicator not displayed within 10 gives way to the legacy one, and
    when neither is displayed in time number_of_pages is 25. *)
Theorem count_wait_durations (driver : Dom) :
  primary_duration = 10 /\ secondary_duration = 5 /\
  (wait_css driver sel_job_count primary_duration = ret tt <->
   displayed_within driver sel_job_count 10) /\
  (wait_css driver sel_search_count_pages secondary_duration = ret tt <->
   displayed_within driver sel_search_count_pages 5) /\
  (forall e rest t total_jobs n,
      find_elements driver CSS_SELECTOR sel_job_count = e :: rest ->
      displayed_after e = Some t -> t <= 10 ->
      parse_job_count (text e) = ret (total_jobs, n) ->
      number_of_pages driver = n) /\
  (forall e rest t total_jobs n,
      ~ displayed_within driver sel_job_count 10 ->
      find_elements driver CSS_SELECTOR sel_search_count_pages = e :: rest ->
      displayed_after e = Some t -> t <= 5 ->
      parse_job_count (text e) = ret (total_jobs, n) ->
      number_of_pages driver = n) /\
  (~ displayed_within driver sel_job_count 10 ->
   ~ displayed_within driver sel_search_count_pages 5 ->
   number_of_pages driver = 25).
Proof.
  split; [reflexivity|]. split; [reflexivity|].
  split; [apply wait_css_returns|]. split; [apply wait_css_returns|].
  unfold number_of_pages, sel_job_count, sel_search_count_pages,
    primary_duration, secondary_duration.
  split; [|split].
  - intros e rest t total_jobs n Hf Ht Hle Hp.
    rewrite (read_job_count_displayed _ _ _ _ e rest t Hf Ht Hle), Hp.
    reflexivity.
  - intros e rest t total_jobs n Hno Hf Ht Hle Hp.
    rewrite (read_job_count_timeout _ _ _ _ (wait_css_times_out _ _ _ _ Hno)).
    rewrite (read_job_count_displayed _ _ _ _ e rest t Hf Ht Hle), Hp.
    reflexivity.
  - intros Hno1 Hno2.
    rewrite (read_job_count_timeout _ _ _ _ (wait_css_times_out _ _ _ _ Hno1)).
    rewrite (read_job_count_timeout _ _ _ _ (wait_css_times_out _ _ _ _ Hno2)).
    reflexivity.
Qed.

Lemma count_wait_durations_witness :
  number_of_pages Examples.dom_legacy = 234.
Proof.
  destruct (count_wait_durations Examples.dom_legacy)
    as (_ & _ & _ & _ & _ & H & _).
  apply (H (Examples.late 4 (Examples.elem "Page 1 of 2,345 jobs" "")) [] 4
           "2345" 234).
  - intros (e & rest & t & Hf & _). discriminate Hf.
  - reflexivity.
  - reflexivity.
  - lia.
  - reflexivity.
Defined.

(** ** Record sink *)

Lemma columns_job_post (v : Vars) : columns (job_post v) = header.
Proof. reflexivity. Qed.

Lemma save_job_post_existing (d : list (string * string)) (w : World)
    (r : list Row) :
  store w = Some r ->
  store (save_job_post d w) = Some (r ++ [values d])%list.
Proof. intros H. unfold save_job_post. now rewrite H. Qed.

Lemma save_job_post_fresh (d : list (string * string)) (w : World) :
  store w = None ->
  store (save_job_post d w) = Some [columns d; values d].
Proof. intros H. unfold save_job_post. now rewrite H. Qed.

Lemma save_all_existing (ds : list (list (string * string))) :
  forall (w : World) (r : list Row),
    store w = Some r ->
    store (save_all ds w) = Some (r ++ map values ds)%list.
Proof.
  induction ds as [|d ds IH]; intros w r H; cbn [save_all fold_left map].
  - now rewrite app_nil_r.
  - fold (save_all ds (save_job_post d w)).
    rewrite (IH _ _ (save_job_post_existing d w r H)).
    now rewrite <- app_assoc.
Qed.

(** C4. On a destination that does not exist the first append creates
    it with the header row (the nine column names) followed by the
    record (the nine values of the posting, in column order); an append
    to an existing destination adds the one record row and no header;
    so N postings appended to a fresh destination leave the header
    followed by the N records in the order they were appended, N + 1
    rows. *)
Theorem record_sink_rows (v : Vars) (vs : list Vars) (w : World) :
  store w = None ->
  store (save_job_post (job_post v) w)
  = Some [ [ "Job Title"; "Salary"; "Job Type"; "Location"; "Company Name";
             "Date Posted"; "Reviews"; "Job URL"; "Listing URL" ];
           [ job_title v; salary v; job_type v; location v; company_name v;
             date_posted v; reviews v; job_url v; listing_url v ] ] /\
  (forall (w0 : World) (r : list Row) (v0 : Vars),
      store w0 = Some r ->
      store (save_job_post (job_post v0) w0)
      = Some (r ++ [ [ job_title v0; salary v0; job_type v0; location v0;
                       company_name v0; date_posted v0; reviews v0;
                       job_url v0; listing_url v0 ] ])%list) /\
  store (save_all (map job_post (v :: vs)) w)
  = Some ([ "Job Title"; "Salary"; "Job Type"; "Location"; "Company Name";
            "Date Posted"; "Reviews"; "Job URL"; "Listing URL" ]
          :: map (fun v0 =>
                    [ job_title v0; salary v0; job_type v0; location v0;
                      company_name v0; date_posted v0; reviews v0;
                      job_url v0; listing_url v0 ])
               (v :: vs)) /\
  List.length (rows (save_all (map job_post (v :: vs)) w))
  = S (List.length (v :: vs)).
Proof.
  intros Hfresh.
  assert (Hall : store (save_all (map job_post (v :: vs)) w)
                 = Some (header :: map (fun v0 => values (job_post v0)) (v :: vs))).
  { cbn [map save_all fold_left].
    fold (save_all (map job_post vs) (save_job_post (job_post v) w)).
    rewrite (save_all_existing _ _ _ (save_job_post_fresh _ w Hfresh)).
    rewrite columns_job_post, map_map. reflexivity. }
  split; [now apply save_job_post_fresh|].
  split; [intros w0 r v0 H0; now apply save_job_post_existing|].
  split; [exact Hall|].
  unfold rows. rewrite Hall. cbn [List.length]. now rewrite length_map.
Qed.

Lemma record_sink_rows_witness :
  store (save_all
           (map job_post
              [ {| job_title := "Welder"; company_name := "Acme";
                   location := "Toronto, ON"; salary := "$30 an hour";
                   job_type := "Part-time"; date_posted := "Today";
                   reviews := "12 reviews"; job_url := "https://a/1";
                   listing_url := "https://a/1" |};
                blank;
                {| job_title := "Driver"; company_name := "Zed";
                   location := "Ottawa, ON"; salary := "";
                   job_type := "Full-Time"; date_posted := "Today";
                   reviews := "Reviews Not Found"; job_url := "";
                   listing_url := "https://a/3" |} ])
           (new_session None))
  = Some [ [ "Job Title"; "Salary"; "Job Type"; "Location"; "Company Name";
             "Date Posted"; "Reviews"; "Job URL"; "Listing URL" ];
           [ "Welder"; "$30 an hour"; "Part-time"; "Toronto, ON"; "Acme";
             "Today"; "12 reviews"; "https://a/1"; "https://a/1" ];
           [ ""; ""; ""; ""; ""; ""; ""; ""; "" ];
           [ "Driver"; ""; "Full-Time"; "Ottawa, ON"; "Zed"; "Today";
             "Reviews Not Found"; ""; "https://a/3" ] ].
Proof.
  apply (record_sink_rows
           {| job_title := "Welder"; company_name := "Acme";
              location := "Toronto, ON"; salary := "$30 an hour";
              job_type := "Part-time"; date_posted := "Today";
              reviews := "12 reviews"; job_url := "https://a/1";
              listing_url := "https://a/1" |}
           [ blank;
             {| job_title := "Driver"; company_name := "Zed";
                location := "Ottawa, ON"; salary := "";
                job_type := "Full-Time"; date_posted := "Today";
                reviews := "Reviews Not Found"; job_url := "";
                listing_url := "https://a/3" |} ]
           (new_session None)).
  reflexivity.
Defined.

(** ** Pagination *)

Lemma page_body_completed (site : Site) (city : string) (p p' : Pagination)
    (w w' : World) :
  page_body site city p w = (None, p', w') -> p' = advance p.
Proof.
  unfold page_body.
  destruct (driver_get _ _ w) as [[e|u] w1]; [discriminate|].
  destruct (wait_css _ _ _); [discriminate|].
  destruct (cards _) as [cvs|]; [|discriminate].
  destruct (for_cards cvs 0 blank w1) as [[o v1] w2].
  intros H. now inversion H.
Qed.

Lemma page_body_pagination (site : Site) (city : string) (p p' : Pagination)
    (w w' : World) (o : option exn) :
  page_body site city p w = (o, p', w') -> p' = p \/ p' = advance p.
Proof.
  unfold page_body.
  destruct (driver_get _ _ w) as [[e|u] w1].
  - intros H; inversion H; auto.
  - destruct (wait_css _ _ _); [intros H; inversion H; auto|].
    destruct (cards _) as [cvs|]; [|intros H; inversion H; auto].
    destruct (for_cards cvs 0 blank w1) as [[o1 v1] w2].
    intros H; inversion H; auto.
Qed.

Lemma range_nil (start stop : Z) : stop <= start -> range start stop = [].
Proof.
  intros H. unfold range.
  replace (Z.to_nat (stop - start)) with O by lia. reflexivity.
Qed.

Lemma range_cons (start stop : Z) :
  start < stop -> range start stop = start :: range (start + 1) stop.
Proof.
  intros H. unfold range.
  replace (Z.to_nat (stop - start)) with (S (Z.to_nat (stop - (start + 1))))
    by lia.
  cbn [seq map]. f_equal; [lia|].
  rewrite <- seq_shift, map_map.
  apply map_ext. intros k. lia.
Qed.

(** The loop over the range does what the guarded loop does. *)
Lemma for_pages_refines (site : Site) (city : string) (n : Z) (m : nat) :
  forall (k : nat) (p : Pagination) (w : World),
    Z.to_nat (n - pages_scraped p) = m ->
    pages_loop_spec site city n (m + k) p w
    = Some (for_pages site city (range (pages_scraped p) n) p w).
Proof.
  induction m as [|m IH]; intros k p w Hm.
  - rewrite range_nil by lia.
    destruct k; cbn [pages_loop_spec Nat.add for_pages];
      (destruct (n <=? pages_scraped p) eqn:Hle; [reflexivity|]);
      apply Z.leb_gt in Hle; lia.
  - rewrite range_cons by lia.
    cbn [pages_loop_spec Nat.add for_pages].
    destruct (n <=? pages_scraped p) eqn:Hle; [apply Z.leb_le in Hle; lia|].
    destruct (page_body site city p w) as [[[e|] p1] w1] eqn:Hb; [reflexivity|].
    apply page_body_completed in Hb. subst p1.
    replace (pages_scraped p + 1) with (pages_scraped (advance p)) by reflexivity.
    apply IH. cbn [advance pages_scraped]. lia.
Qed.

Lemma advance_in_lockstep (p : Pagination) :
  in_lockstep p -> in_lockstep (advance p).
Proof. unfold in_lockstep. cbn [advance job_count pages_scraped]. lia. Qed.

Lemma for_pages_pagination (site : Site) (city : string) (pages : list Z) :
  forall (p p' : Pagination) (w w' : World) (o : option exn),
    for_pages site city pages p w = (o, p', w') ->
    in_lockstep p ->
    in_lockstep p' /\
    (o = None ->
     pages_scraped p' = pages_scraped p + Z.of_nat (List.length pages)).
Proof.
  induction pages as [|page pages IH]; intros p p' w w' o H Hp.
  - cbn in H. inversion H; subst. split; [assumption|]. cbn. lia.
  - cbn [for_pages] in H.
    destruct (page_body site city p w) as [[[e|] p1] w1] eqn:Hb.
    + inversion H; subst.
      split; [|discriminate].
      destruct (page_body_pagination _ _ _ _ _ _ _ Hb) as [->| ->];
        auto using advance_in_lockstep.
    + apply page_body_completed in Hb. subst p1.
      destruct (IH _ _ _ _ _ H (advance_in_lockstep _ Hp)) as [Hl Hn].
      split; [assumption|]. intros Ho. rewrite (Hn Ho).
      cbn [advance pages_scraped List.length]. lia.
Qed.

Lemma range_length (start stop : Z) :
  Z.of_nat (List.length (range start stop)) = Z.max 0 (stop - start).
Proof. unfold range. rewrite length_map, length_seq. lia. Qed.

(** C3. Every page the loop completes advances job_count by exactly 10
    and pages_scraped by exactly 1; the two stay in lockstep
    (job_count = 10 * pages_scraped) from the checkpoint on, whatever
    the outcome; the loop over the range is the loop that goes on
    exactly while pages_scraped < number_of_pages, and when it ends
    pages_scraped >= number_of_pages. *)
Theorem pagination_lockstep (site : Site) (city : string) (n : Z) (w : World) :
  (forall (p p' : Pagination) (w0 w' : World),
      page_body site city p w0 = (None, p', w') ->
      job_count p' = job_count p + 10 /\
      pages_scraped p' = pages_scraped p + 1) /\
  (forall k : nat,
      pages_loop_spec site city n (Z.to_nat (n - 151) + k) checkpoint w
      = Some (page_loop site city n w)) /\
  (forall (o : option exn) (p' : Pagination) (w' : World),
      page_loop site city n w = (o, p', w') ->
      job_count p' = 10 * pages_scraped p' /\
      (o = None ->
       n <= pages_scraped p' /\ pages_scraped p' = Z.max 151 n)).
Proof.
  split; [|split].
  - intros p p' w0 w' H. apply page_body_completed in H. subst p'.
    split; reflexivity.
  - intros k. unfold page_loop. now apply for_pages_refines.
  - intros o p' w' H. unfold page_loop in H.
    destruct (for_pages_pagination _ _ _ _ _ _ _ _ H) as [Hl Hn];
      [reflexivity|].
    split; [exact Hl|]. intros Ho. specialize (Hn Ho).
    rewrite range_length in Hn. cbn [checkpoint pages_scraped] in Hn. lia.
Qed.

Lemma pagination_lockstep_witness :
  fst (page_loop Examples.site_1530 "Toronto" 153 (new_session None))
  = (None, {| job_count := 1530; pages_scraped := 153;
              jobs_scraped := 153 * 15 |}) /\
  pages_loop_spec Examples.site_1530 "Toronto" 153 2 checkpoint
    (new_session None)
  = Some (page_loop Examples.site_1530 "Toronto" 153 (new_session None)).
Proof.
  split; [reflexivity|].
  destruct (pagination_lockstep Examples.site_1530 "Toronto" 153
              (new_session None)) as (_ & H & _).
  exact (H O).
Defined.

(** C10. The checkpoint is pages_scraped = 151, job_count = 1510, and
    the loop runs over range(151, number_of_pages): when
    number_of_pages <= 151 its body never runs, so the loop returns the
    checkpoint and leaves the session and the store as they were.  For
    the whole query: the only navigation is the one to the search page,
    no card is processed and the store is untouched; this is the case
    whenever both count indicators time out and the default 25 is
    used. *)
Theorem checkpoint_beyond_total (site : Site) (city : string) :
  pages_scraped checkpoint = 151 /\ job_count checkpoint = 1510 /\
  (forall (n : Z) (w : World),
      n <= 151 -> page_loop site city n w = (None, checkpoint, w)) /\
  (forall file_city : option (list Row),
      number_of_pages (landing (site (url_final city))) <= 151 ->
      snd (get_job_posts site city file_city)
      = {| context := Outer; trace := [Get (url_final city)];
           store := file_city |}) /\
  (forall file_city : option (list Row),
      wait_css (landing (site (url_final city))) sel_job_count
        primary_duration = raise TimeoutException ->
      wait_css (landing (site (url_final city))) sel_search_count_pages
        secondary_duration = raise TimeoutException ->
      snd (get_job_posts site city file_city)
      = {| context := Outer; trace := [Get (url_final city)];
           store := file_city |}).
Proof.
  assert (Hloop : forall (n : Z) (w : World),
             n <= 151 -> page_loop site city n w = (None, checkpoint, w)).
  { intros n w Hn. unfold page_loop.
    rewrite range_nil by (cbn [checkpoint pages_scraped]; lia). reflexivity. }
  assert (Hquery : forall file_city : option (list Row),
             number_of_pages (landing (site (url_final city))) <= 151 ->
             snd (get_job_posts site city file_city)
             = {| context := Outer; trace := [Get (url_final city)];
                  store := file_city |}).
  { intros file_city Hn. unfold get_job_posts, driver_get.
    destruct (loads (site (url_final city))); [|reflexivity].
    destruct (wait_css _ sel_results_list 30); [reflexivity|].
    rewrite (Hloop _ _ Hn). reflexivity. }
  split; [reflexivity|]. split; [reflexivity|]. split; [exact Hloop|].
  split; [exact Hquery|].
  intros file_city H1 H2. apply Hquery.
  unfold number_of_pages, sel_job_count, sel_search_count_pages in *.
  rewrite (read_job_count_timeout _ _ _ _ H1).
  rewrite (read_job_count_timeout _ _ _ _ H2).
  cbn. discriminate.
Qed.

Lemma checkpoint_beyond_total_witness :
  page_loop Examples.site_plain "Toronto" 25 (new_session None)
  = (None, checkpoint, new_session None) /\
  snd (get_job_posts Examples.site_plain "Toronto" None)
  = {| context := Outer; trace := [Get (url_final "Toronto")];
       store := None |}.
Proof.
  destruct (checkpoint_beyond_total Examples.site_plain "Toronto")
    as (_ & _ & Hloop & _ & Hquery).
  split.
  - apply Hloop. lia.
  - apply Hquery; reflexivity.
Defined.

(** ** The detail panel *)

Lemma count_app (f : Event -> bool) (t l : list Event) :
  count f (t ++ l)%list = (count f t + count f l)%nat.
Proof. unfold count. now rewrite filter_app, length_app. Qed.

Ltac flatten_trace :=
  cbn; repeat rewrite <- app_assoc; cbn [app].

Ltac trace_suffix :=
  split; [reflexivity|];
  eexists; split; [flatten_trace; reflexivity|];
  cbn; repeat split; lia.

(** Entering: one attempt, at most one switch into the frame, no exit;
    the store is not touched. *)
Lemma enter_detail_context_effect (cv : CardView) (w : World) :
  store (enter_detail_context cv w) = store w /\
  exists l : list Event,
    trace (enter_detail_context cv w) = (trace w ++ l)%list /\
    count is_entry_attempt l = 1%nat /\
    count is_exit l = 0%nat /\
    (count is_entry l <= 1)%nat.
Proof.
  unfold enter_detail_context, enter_detail_body, switch_to_frame.
  destruct (wait_css _ sel_iframe 5) as [e|u]; [trace_suffix|].
  destruct (find_element _ CSS_SELECTOR sel_iframe) as [e|element];
    [trace_suffix|].
  destruct (frame_enters cv); trace_suffix.
Qed.

(** Leaving: the switch to the top-level document is always issued,
    once; the session is in the outer context when the call returned
    and where it was when the call raised. *)
Lemma exit_detail_context_effect (cv : CardView) (w : World) :
  context (exit_detail_context cv w)
  = (if top_returns cv then Outer else context w) /\
  store (exit_detail_context cv w) = store w /\
  exists l : list Event,
    trace (exit_detail_context cv w) = (trace w ++ l)%list /\
    count is_entry_attempt l = 0%nat /\
    count is_exit l = 1%nat /\
    count is_entry l = 0%nat.
Proof.
  unfold exit_detail_context, exit_detail_body, switch_to_default_content.
  destruct (top_returns cv);
    (split; [reflexivity|]); (split; [reflexivity|]);
    eexists; (split; [flatten_trace; reflexivity|]); repeat split.
Qed.

Lemma save_job_post_session (d : list (string * string)) (w : World) :
  context (save_job_post d w) = context w /\
  trace (save_job_post d w) = trace w.
Proof. unfold save_job_post. destruct (store w); split; reflexivity. Qed.

(** The session after the fields of a card were extracted. *)
Lemma extract_fields_session (cv : CardView) (i : nat) (job : Card)
    (v : Vars) (w : World) :
  let w' := snd (extract_fields cv i job v w) in
  (top_returns cv = true -> context w' = Outer) /\
  store w' = store w /\
  count is_entry_attempt (trace w') = S (count is_entry_attempt (trace w)) /\
  count is_exit (trace w') = S (count is_exit (trace w)) /\
  (count is_entry (trace w') <= S (count is_entry (trace w)))%nat.
Proof.
  cbn [extract_fields snd].
  destruct (exit_detail_context_effect cv (enter_detail_context cv w))
    as (Hc & Hs & l2 & Ht & Ha2 & Hx2 & He2).
  destruct (enter_detail_context_effect cv w) as (Hs' & l & Hl & Ha & Hx & He).
  split; [intros Hr; now rewrite Hc, Hr|]. split; [congruence|].
  rewrite Ht, Hl, !count_app, Ha, Hx, Ha2, Hx2, He2. lia.
Qed.

(** A card either raises at its lookup or at the scroll, before
    anything was done, or is processed to the end. *)
Lemma card_body_cases (cv : CardView) (i : nat) (v : Vars) (w : World) :
  (exists e : exn,
      card_body cv i v w = (inl e, w) /\
      (relocate cv i = inl e \/
       exists job, relocate cv i = ret job /\ scroll_into_view job = inl e)) \/
  (exists job : Card,
      relocate cv i = ret job /\ scroll_into_view job = ret tt /\
      card_body cv i v w
      = (ret (fst (extract_fields cv i job v w)),
         save_job_post (job_post (fst (extract_fields cv i job v w)))
           (snd (extract_fields cv i job v w)))).
Proof.
  unfold card_body.
  destruct (relocate cv i) as [e|job] eqn:Hr.
  - left. exists e. auto.
  - destruct (scroll_into_view job) as [e|[]] eqn:Hs.
    + left. exists e. split; [reflexivity|]. right. now exists job.
    + right. exists job. split; [reflexivity|]. split; [exact Hs|].
      cbv zeta. now destruct (extract_fields cv i job v w).
Qed.

(** What a processed card adds to the session. *)
Lemma card_body_processed (cv : CardView) (i : nat) (v v' : Vars)
    (w w' : World) :
  card_body cv i v w = (ret v', w') ->
  (top_returns cv = true -> context w' = Outer) /\
  count is_entry_attempt (trace w') = S (count is_entry_attempt (trace w)) /\
  count is_exit (trace w') = S (count is_exit (trace w)) /\
  (count is_entry (trace w') <= S (count is_entry (trace w)))%nat.
Proof.
  intros H.
  destruct (card_body_cases cv i v w) as [(e & He & _)|(job & _ & _ & Hb)].
  - rewrite He in H. discriminate.
  - rewrite Hb in H.
    assert (Hw : w' = save_job_post
                        (job_post (fst (extract_fields cv i job v w)))
                        (snd (extract_fields cv i job v w))) by congruence.
    destruct (save_job_post_session
                (job_post (fst (extract_fields cv i job v w)))
                (snd (extract_fields cv i job v w))) as [Hsc Hst].
    destruct (extract_fields_session cv i job v w) as (Hc & _ & Ha & Hx & He).
    rewrite Hw, Hsc, Hst. auto.
Qed.

Lemma card_body_raised (cv : CardView) (i : nat) (v : Vars) (w w' : World)
    (e : exn) :
  card_body cv i v w = (inl e, w') -> w' = w.
Proof.
  intros H.
  destruct (card_body_cases cv i v w) as [(e0 & He & _)|(job & _ & _ & Hb)].
  - rewrite He in H. now inversion H.
  - rewrite Hb in H. discriminate.
Qed.

Lemma card_body_paired (cv : CardView) (i : nat) (v : Vars) (w w' : World)
    (r : res Vars) :
  card_body cv i v w = (r, w') -> paired w -> paired w'.
Proof.
  intros H (Hx & He). destruct r as [e|v'].
  - apply card_body_raised in H. subst. split; assumption.
  - destruct (card_body_processed _ _ _ _ _ _ H) as (_ & Ha' & Hx' & He').
    split; lia.
Qed.

Lemma for_cards_paired (cvs : list CardView) :
  forall (i : nat) (v v' : Vars) (w w' : World) (o : option exn),
    for_cards cvs i v w = (o, v', w') -> paired w -> paired w'.
Proof.
  induction cvs as [|cv cvs IH]; intros i v v' w w' o H Hp.
  - cbn in H. inversion H; subst. assumption.
  - cbn [for_cards] in H.
    destruct (card_body cv i v w) as [[e|v1] w1] eqn:Hb.
    + inversion H; subst. eapply card_body_paired; eauto.
    + eapply IH; [exact H|]. eapply card_body_paired; eauto.
Qed.

(** Cards whose exit call returns leave the session in the outer
    context. *)
Lemma for_cards_outer (cvs : list CardView) :
  forall (i : nat) (v v' : Vars) (w w' : World) (o : option exn),
    for_cards cvs i v w = (o, v', w') ->
    context w = Outer ->
    Forall (fun cv => top_returns cv = true) cvs ->
    context w' = Outer.
Proof.
  induction cvs as [|cv cvs IH]; intros i v v' w w' o H Hc Hall.
  - cbn in H. inversion H; subst. assumption.
  - inversion Hall as [|? ? Hcv Hrest]; subst.
    cbn [for_cards] in H.
    destruct (card_body cv i v w) as [[e|v1] w1] eqn:Hb.
    + apply card_body_raised in Hb. inversion H; subst. assumption.
    + destruct (card_body_processed _ _ _ _ _ _ Hb) as (Hc1 & _).
      eapply IH; [exact H|now apply Hc1|exact Hrest].
Qed.

Lemma count_emit_get (f : Event -> bool) (url : string) (w : World) :
  f (Get url) = false ->
  count f (trace (emit (Get url) w)) = count f (trace w).
Proof.
  intros Hf. cbn [emit trace]. rewrite count_app.
  unfold count at 2. cbn [filter]. rewrite Hf. cbn. lia.
Qed.

Lemma driver_get_paired (pv : PageView) (url : string) (w w' : World)
    (r : res unit) :
  driver_get pv url w = (r, w') -> paired w -> paired w'.
Proof.
  unfold driver_get, paired. intros H (Hx & He).
  destruct (loads pv); inversion H; subst;
    cbn [set_context context trace];
    fold (trace (emit (Get url) w));
    rewrite !count_emit_get by reflexivity; auto.
Qed.

Lemma driver_get_returned (pv : PageView) (url : string) (w w' : World) :
  driver_get pv url w = (ret tt, w') -> context w' = Outer.
Proof.
  unfold driver_get. destruct (loads pv); intros H; inversion H. reflexivity.
Qed.

Lemma page_body_paired (site : Site) (city : string) (p p' : Pagination)
    (w w' : World) (o : option exn) :
  page_body site city p w = (o, p', w') -> paired w -> paired w'.
Proof.
  unfold page_body. intros H Hp.
  destruct (driver_get _ _ w) as [[e|u] w1] eqn:Hg;
    pose proof (driver_get_paired _ _ _ _ _ Hg Hp) as Hp1.
  - inversion H; subst. assumption.
  - destruct (wait_css _ _ _); [inversion H; subst; assumption|].
    destruct (cards _) as [cvs|]; [|inversion H; subst; assumption].
    destruct (for_cards cvs 0 blank w1) as [[o1 v1] w2] eqn:Hf.
    inversion H; subst. eapply for_cards_paired; eauto.
Qed.

Lemma for_pages_paired (site : Site) (city : string) (pages : list Z) :
  forall (p p' : Pagination) (w w' : World) (o : option exn),
    for_pages site city pages p w = (o, p', w') -> paired w -> paired w'.
Proof.
  induction pages as [|page pages IH]; intros p p' w w' o H Hp.
  - cbn in H. inversion H; subst. assumption.
  - cbn [for_pages] in H.
    destruct (page_body site city p w) as [[[e|] p1] w1] eqn:Hb.
    + inversion H; subst. eapply page_body_paired; eauto.
    + eapply IH; [exact H|]. eapply page_body_paired; eauto.
Qed.

Lemma get_job_posts_paired (site : Site) (city : string)
    (file_city : option (list Row)) :
  paired (snd (get_job_posts site city file_city)).
Proof.
  assert (H0 : paired (new_session file_city)).
  { split; cbn; lia. }
  unfold get_job_posts.
  destruct (driver_get _ _ (new_session file_city)) as [[e|u] w1] eqn:Hg;
    pose proof (driver_get_paired _ _ _ _ _ Hg H0) as Hp1; [assumption|].
  destruct (wait_css _ _ _); [assumption|].
  destruct (page_loop _ _ _ w1) as [[o p] w2] eqn:Hl.
  cbn [snd]. unfold page_loop in Hl. eapply for_pages_paired; eauto.
Qed.

(** C5, as stated, fails: on a card whose detail frame was entered and
    whose switch back to the top-level document raises, the exception
    is swallowed (lines 319-320) and the card ends inside the frame, so
    the outer context is not active after the last card.  The exit call
    was made all the same: one attempt to enter, one exit call. *)
Lemma exit_failure_leaves_the_frame :
  context (snd (for_cards [Examples.view_framed; Examples.view_stuck] 0 blank
                  (new_session None))) = Frame /\
  fst (fst (for_cards [Examples.view_framed; Examples.view_stuck] 0 blank
              (new_session None))) = None /\
  count is_entry_attempt
    (trace (snd (for_cards [Examples.view_framed; Examples.view_stuck] 0 blank
                   (new_session None)))) = 2%nat /\
  count is_exit
    (trace (snd (for_cards [Examples.view_framed; Examples.view_stuck] 0 blank
                   (new_session None)))) = 2%nat.
Proof. repeat split. Qed.

(** C5, amended. Entry to and exit from the detail context are paired
    as calls: every card that is processed adds exactly one attempt to
    enter and exactly one exit call, whether or not the attempt switched
    into the frame and whether or not the exit call itself returned; so
    over the cards of a page and over a whole query the number of exit
    calls equals the number of entry attempts.  The session is in the
    outer context when the load of a page returns, before its first
    card, and after every card whose exit call returned; when the exit
    call of every card returns, it is after the last card. *)
Theorem detail_context_paired :
  (forall (pv : PageView) (url : string) (w w' : World),
      driver_get pv url w = (ret tt, w') -> context w' = Outer) /\
  (forall (cv : CardView) (i : nat) (v v' : Vars) (w w' : World),
      card_body cv i v w = (ret v', w') ->
      (top_returns cv = true -> context w' = Outer) /\
      count is_entry_attempt (trace w') = S (count is_entry_attempt (trace w)) /\
      count is_exit (trace w') = S (count is_exit (trace w)) /\
      (count is_entry (trace w') <= S (count is_entry (trace w)))%nat) /\
  (forall (cvs : list CardView) (i : nat) (v v' : Vars) (w w' : World)
          (o : option exn),
      for_cards cvs i v w = (o, v', w') ->
      (count is_exit (trace w) = count is_entry_attempt (trace w) ->
       count is_exit (trace w') = count is_entry_attempt (trace w')) /\
      (context w = Outer ->
       Forall (fun cv => top_returns cv = true) cvs ->
       context w' = Outer)) /\
  (forall (site : Site) (city : string) (file_city : option (list Row)),
      let w := snd (get_job_posts site city file_city) in
      count is_exit (trace w) = count is_entry_attempt (trace w) /\
      (count is_entry (trace w) <= count is_exit (trace w))%nat).
Proof.
  split; [exact driver_get_returned|].
  split; [exact card_body_processed|].
  split; [|exact get_job_posts_paired].
  intros cvs i v v' w w' o H. split; [|now apply (for_cards_outer cvs i v v' w w' o)].
  revert i v v' w w' o H.
  induction cvs as [|cv cvs IH]; intros i v v' w w' o H Hx.
  - cbn in H. inversion H; subst. auto.
  - cbn [for_cards] in H.
    destruct (card_body cv i v w) as [[e|v1] w1] eqn:Hb.
    + apply card_body_raised in Hb. inversion H; subst. auto.
    + destruct (card_body_processed _ _ _ _ _ _ Hb) as (_ & Ha1 & Hx1 & _).
      eapply IH; [exact H|lia].
Qed.

Lemma detail_context_paired_witness :
  let w := snd (for_cards [Examples.view_framed; Examples.view_framed] 0 blank
                  (new_session None)) in
  context w = Outer /\
  count is_exit (trace w) = count is_entry_attempt (trace w) /\
  count is_entry (trace w) = 2%nat.
Proof.
  destruct detail_context_paired as (_ & _ & H & _).
  cbv zeta.
  destruct (for_cards [Examples.view_framed; Examples.view_framed] 0 blank
              (new_session None)) as [[o v'] w'] eqn:Hf.
  destruct (H _ _ _ _ _ _ _ Hf) as [Hx Hc].
  split; [apply Hc; [reflexivity|repeat constructor]|].
  split; [apply Hx; reflexivity|].
  vm_compute in Hf. inversion Hf. reflexivity.
Defined.

(** ** Fields *)

(** Whether the company block returns does not depend on the URL it
    hands on. *)
Lemma read_company_returns (driver : Dom) (job : Card) (l l' s u : string) :
  read_company driver job l = ret (s, u) ->
  u = l /\ read_company driver job l' = ret (s, l').
Proof.
  unfold read_company.
  destruct (wait_until_visible _ _ _ _ _ _ _); [discriminate|].
  cbn [bind]. destruct (find_element _ _ _); [discriminate|].
  cbn [bind ret]. intros H. inversion H. auto.
Qed.





Lemma read_company_raises (driver : Dom) (job : Card) (l l' : string)
    (e : exn) :
  read_company driver job l = inl e -> read_company driver job l' = inl e.
Proof.
  unfold read_company.
  destruct (wait_until_visible _ _ _ _ _ _ _); [trivial|].
  cbn [bind]. destruct (find_element _ _ _); [trivial|discriminate].
Qed.




(** What a block that raises leaves in its variable: the three blocks
    whose [except] names a default assign it; the others keep the value
    the variable had when the card started. *)
Lemma extract_fields_on_failure (cv : CardView) (i : nat) (job : Card)
    (v : Vars) (w : World) :
  let driver := document cv (context w) in
  let v' := fst (extract_fields cv i job v w) in
  (forall e, read_job_type driver i = inl e -> job_type v' = "Full-Time") /\
  (forall e, read_date_posted driver i = inl e -> date_posted v' = "Today") /\
  (forall e,
      read_reviews (document cv (context (enter_detail_context cv w))) = inl e ->
      reviews v' = "Reviews Not Found") /\
  (forall e, read_job_title driver i = inl e -> job_title v' = job_title v) /\
  (forall e, read_listing_url driver i = inl e ->
             listing_url v' = listing_url v) /\
  (forall e, read_salary driver i = inl e -> salary v' = salary v) /\
  (forall e, read_location driver i = inl e -> location v' = location v) /\
  (forall e l, read_company driver job l = inl e ->
               company_name v' = company_name v /\ job_url v' = job_url v).
Proof.
  cbv zeta.
  cbn [extract_fields fst job_title listing_url salary location job_type
       date_posted company_name reviews job_url].
  do 7 (split; [intros e H; now rewrite H|]).
  intros e l H.
  rewrite (read_company_raises _ _ _
             (try_except (read_listing_url (document cv (context w)) i)
                (listing_url v)) _ H).
  split; reflexivity.
Qed.

(** C1, the failing input. On a page with two cards and a single title
    link and salary, the blocks of the second card for the title, the
    listing URL, the salary and the company name raise; its record does
    not carry the empty defaults but the values of the first card. *)
Theorem second_card_keeps_first_values :
  read_job_title Examples.top_two 1 = raise IndexError /\
  read_listing_url Examples.top_two 1 = raise IndexError /\
  read_salary Examples.top_two 1 = raise IndexError /\
  read_company Examples.top_two Examples.card_bare ""
  = raise NoSuchElementException /\
  for_cards [Examples.view_two; Examples.view_two] 0 blank (new_session None)
  = (None,
     {| job_title := "Welder"; company_name := "Acme";
        location := "Ottawa, ON"; salary := "$30 an hour";
        job_type := "Contract"; date_posted := " 30+ days ago";
        reviews := "Reviews Not Found";
        job_url := "https://ca.indeed.com/rc/clk?jk=1";
        listing_url := "https://ca.indeed.com/rc/clk?jk=1" |},
     snd (for_cards [Examples.view_two; Examples.view_two] 0 blank
            (new_session None))) /\
  rows (snd (for_cards [Examples.view_two; Examples.view_two] 0 blank
               (new_session None)))
  = [ header;
      [ "Welder"; "$30 an hour"; "Part-time"; "Toronto, ON"; "Acme";
        " 3 days ago"; "Reviews Not Found";
        "https://ca.indeed.com/rc/clk?jk=1";
        "https://ca.indeed.com/rc/clk?jk=1" ];
      [ "Welder"; "$30 an hour"; "Contract"; "Ottawa, ON"; "Acme";
        " 30+ days ago"; "Reviews Not Found";
        "https://ca.indeed.com/rc/clk?jk=1";
        "https://ca.indeed.com/rc/clk?jk=1" ] ].
Proof. repeat split. Qed.

(** C8, as stated, fails: a card with a title link and no company name
    is emitted with the listing URL of its title link and an empty job
    URL. *)
Lemma job_url_differs_without_company :
  fst (card_body Examples.view_anon 0 blank (new_session None))
  = ret {| job_title := "Driver"; company_name := ""; location := "";
           salary := ""; job_type := "Full-Time"; date_posted := "Today";
           reviews := "1,024 reviews"; job_url := "";
           listing_url := "https://ca.indeed.com/rc/clk?jk=7" |} /\
  rows (snd (card_body Examples.view_anon 0 blank (new_session None)))
  = [ header;
      [ "Driver"; ""; "Full-Time"; ""; ""; "Today"; "1,024 reviews"; "";
        "https://ca.indeed.com/rc/clk?jk=7" ] ] /\
  "" <> "https://ca.indeed.com/rc/clk?jk=7".
Proof. repeat split. discriminate. Qed.

(** C8, amended. The job URL of a posting is never read from an element
    of its own: after a card it is the card's listing URL or the value
    it had before the card.  Whenever the company-name block of the
    card returns, the posting's job URL equals its listing URL, whatever
    the blocks of the other fields did. *)
Theorem job_url_aliases_listing_url (cv : CardView) (i : nat) (v v' : Vars)
    (w w' : World) (job : Card) :
  relocate cv i = ret job ->
  card_body cv i v w = (ret v', w') ->
  (job_url v' = listing_url v' \/ job_url v' = job_url v) /\
  (forall s u l,
      read_company (document cv (context w)) job l = ret (s, u) ->
      job_url v' = listing_url v' /\
      getitem (job_post v') "Job URL" = getitem (job_post v') "Listing URL").
Proof.
  intros Hr Hb.
  destruct (card_body_cases cv i v w) as [(e & He & _)|(job' & Hr' & _ & Hb')].
  { rewrite He in Hb. discriminate. }
  assert (job' = job) by (unfold ret in *; congruence). subst job'.
  assert (Hv : v' = fst (extract_fields cv i job v w))
    by (unfold ret in *; congruence).
  subst v'.
  cbn [extract_fields fst job_url listing_url job_post getitem String.eqb
       Ascii.eqb Bool.eqb].
  split.
  - destruct (read_company (document cv (context w)) job
                (try_except (read_listing_url (document cv (context w)) i)
                   (listing_url v))) as [e|[s u]] eqn:Hc.
    + right. reflexivity.
    + left. destruct (read_company_returns _ _ _ "" _ _ Hc) as [-> _].
      reflexivity.
  - intros s u l Hc.
    destruct (read_company_returns _ _ _
                (try_except (read_listing_url (document cv (context w)) i)
                   (listing_url v)) _ _ Hc) as [_ Hc'].
    rewrite Hc'. cbn [try_except snd]. split; reflexivity.
Qed.

Lemma job_url_aliases_listing_url_witness :
  exists (v' : Vars) (w' : World),
    card_body Examples.view_two 0 blank (new_session None) = (ret v', w') /\
    job_url v' = listing_url v'.
Proof.
  destruct (card_body Examples.view_two 0 blank (new_session None))
    as [[e|v'] w'] eqn:Hb; [discriminate Hb|].
  exists v', w'. split; [reflexivity|].
  destruct (job_url_aliases_listing_url Examples.view_two 0 blank v'
              (new_session None) w' Examples.card_acme eq_refl Hb) as [_ H].
  apply (H "Acme" "" ""). reflexivity.
Defined.

(** ** A run does not read the store *)

Ltac run_on_record :=
  unfold enter_detail_context, enter_detail_body, switch_to_frame,
    exit_detail_context, exit_detail_body, switch_to_default_content,
    info, emit, set_context;
  cbn [context trace store].

Lemma enter_detail_context_uniform (cv : CardView) (c : Context) :
  exists (c' : Context) (l : list Event),
    navigations l = [] /\
    forall w : World,
      context w = c ->
      enter_detail_context cv w
      = {| context := c'; trace := (trace w ++ l)%list; store := store w |}.
Proof.
  destruct (wait_css (document cv c) sel_iframe 5) as [e|u] eqn:Hw;
    [|destruct (find_element (document cv c) CSS_SELECTOR sel_iframe)
        as [e|element] eqn:Hf;
      [|destruct (frame_enters cv) eqn:He]];
    eexists; eexists;
    (split; [|intros [c0 t s] Hc; cbn in Hc; subst c0;
      run_on_record; rewrite ?Hw; cbn [context trace store];
      rewrite ?Hf; cbn [context trace store]; rewrite ?He;
      unfold raise, ret; cbn [context trace store];
      repeat rewrite <- app_assoc; cbn [app]; reflexivity]);
    reflexivity.
Qed.

Lemma exit_detail_context_uniform (cv : CardView) (c : Context) :
  exists l : list Event,
    navigations l = [] /\
    forall w : World,
      context w = c ->
      exit_detail_context cv w
      = {| context := if top_returns cv then Outer else c;
           trace := (trace w ++ l)%list; store := store w |}.
Proof.
  destruct (top_returns cv) eqn:Hr; eexists;
    (split; [|intros [c0 t s] Hc; cbn in Hc; subst c0;
      run_on_record; rewrite Hr; unfold raise, ret;
      cbn [context trace store];
      repeat rewrite <- app_assoc; cbn [app]; reflexivity]);
    reflexivity.
Qed.

Lemma navigations_app (t l : list Event) :
  navigations (t ++ l)%list = (navigations t ++ navigations l)%list.
Proof. unfold navigations. apply filter_app. Qed.

Lemma extract_fields_uniform (cv : CardView) (i : nat) (job : Card) (v : Vars)
    (c : Context) :
  exists (v' : Vars) (l : list Event),
    navigations l = [] /\
    forall w : World,
      context w = c ->
      extract_fields cv i job v w
      = (v', {| context := context_after cv c; trace := (trace w ++ l)%list;
                store := store w |}).
Proof.
  destruct (enter_detail_context_uniform cv c) as (c1 & l1 & Hn & He).
  destruct (exit_detail_context_uniform cv c1) as (l2 & Hn2 & Hx).
  eexists. exists (l1 ++ l2)%list.
  split; [rewrite navigations_app, Hn, Hn2; reflexivity|].
  intros w Hc. unfold extract_fields, context_after.
  rewrite (He w Hc), (He {| context := c; trace := []; store := None |} eq_refl).
  rewrite !Hx by reflexivity.
  cbn [context trace store]. rewrite Hc, <- app_assoc. reflexivity.
Qed.

Lemma store_save_all (ds : list (list (string * string))) :
  forall w1 w2 : World,
    store w1 = store w2 -> store (save_all ds w1) = store (save_all ds w2).
Proof.
  induction ds as [|d ds IH]; intros w1 w2 H; [exact H|].
  cbn [save_all fold_left].
  fold (save_all ds (save_job_post d w1)).
  fold (save_all ds (save_job_post d w2)).
  apply IH. unfold save_job_post. rewrite H. now destruct (store w2).
Qed.

Lemma save_all_app (ds1 ds2 : list (list (string * string))) (w : World) :
  save_all (ds1 ++ ds2)%list w = save_all ds2 (save_all ds1 w).
Proof. unfold save_all. apply fold_left_app. Qed.

Lemma extend_nil (w : World) : extend (context w) [] [] w = w.
Proof. destruct w as [c t s]. unfold extend. cbn. now rewrite app_nil_r. Qed.

Lemma extend_extend (c1 c2 : Context) (l1 l2 : list Event)
    (vs1 vs2 : list Vars) (w : World) :
  extend c2 l2 vs2 (extend c1 l1 vs1 w)
  = extend c2 (l1 ++ l2)%list (vs1 ++ vs2)%list w.
Proof.
  unfold extend. cbn [context trace store].
  rewrite app_assoc, map_app, save_all_app. f_equal.
  now apply store_save_all.
Qed.

Lemma extend_emit (c c0 : Context) (e : Event) (l : list Event)
    (vs : list Vars) (w : World) :
  extend c l vs (set_context c0 (emit e w)) = extend c (e :: l) vs w.
Proof.
  unfold extend, emit, set_context. cbn [context trace store].
  rewrite <- app_assoc. cbn [app]. f_equal. now apply store_save_all.
Qed.

Lemma save_job_post_extend (v : Vars) (c : Context) (l : list Event)
    (w : World) :
  save_job_post (job_post v)
    {| context := c; trace := (trace w ++ l)%list; store := store w |}
  = extend c l [v] w.
Proof.
  unfold extend, save_job_post, save_all. cbn [map fold_left store].
  unfold save_job_post. now destruct (store w).
Qed.

(** What a card does to a session depends on the session's context
    only: the outcome, the variables, the events and the posting are the
    same on every session in that context. *)
Lemma card_body_uniform (cv : CardView) (i : nat) (v : Vars) (c : Context) :
  (exists e : exn,
      forall w : World, context w = c -> card_body cv i v w = (inl e, w)) \/
  (exists (job : Card) (v' : Vars) (l : list Event),
      navigations l = [] /\
      relocate cv i = ret job /\
      v' = fst (extract_fields cv i job v
                  {| context := c; trace := []; store := None |}) /\
      forall w : World,
        context w = c ->
        card_body cv i v w = (inr v', extend (context_after cv c) l [v'] w)).
Proof.
  unfold card_body.
  destruct (relocate cv i) as [e|job]; [left; now exists e|].
  destruct (scroll_into_view job) as [e|u]; [left; now exists e|].
  right. destruct (extract_fields_uniform cv i job v c) as (v' & l & Hn & H).
  exists job, v', l. split; [exact Hn|]. split; [reflexivity|].
  split; [now rewrite (H {| context := c; trace := []; store := None |} eq_refl)|].
  intros w Hc. cbv zeta. rewrite (H w Hc).
  now rewrite save_job_post_extend.
Qed.

Lemma for_cards_uniform (cvs : list CardView) :
  forall (i : nat) (v : Vars) (c : Context),
    exists (o : option exn) (v' : Vars) (c' : Context) (l : list Event)
           (vs : list Vars),
      navigations l = [] /\
      (List.length vs <= List.length cvs)%nat /\
      (o = None -> List.length vs = List.length cvs) /\
      forall w : World,
        context w = c -> for_cards cvs i v w = (o, v', extend c' l vs w).
Proof.
  induction cvs as [|cv cvs IH]; intros i v c.
  - exists None, v, c, [], []. repeat split; auto.
    intros w Hc. cbn. subst c. now rewrite extend_nil.
  - destruct (card_body_uniform cv i v c)
      as [(e & He)|(job & v1 & l1 & Hn1 & _ & _ & H1)].
    + exists (Some e), v, c, [], []. repeat split; cbn; auto; try lia;
        try discriminate.
      intros w Hc. cbn [for_cards]. rewrite (He w Hc). subst c.
      now rewrite extend_nil.
    + destruct (IH (S i) v1 (context_after cv c))
        as (o & v' & c' & l2 & vs2 & Hn2 & Hle & Hall & H2).
      exists o, v', c', (l1 ++ l2)%list, (v1 :: vs2).
      split; [rewrite navigations_app, Hn1, Hn2; reflexivity|].
      split; [cbn; lia|]. split; [intros Ho; cbn; now rewrite (Hall Ho)|].
      intros w Hc. cbn [for_cards]. rewrite (H1 w Hc).
      rewrite H2 by reflexivity. now rewrite extend_extend.
Qed.

Lemma page_loads_succ (city : string) (start : Z) (m : nat) :
  page_loads city start (S m)
  = Get (page_url city start) :: page_loads city (start + 10) m.
Proof.
  unfold page_loads. cbn [seq map]. f_equal.
  - now rewrite Z.mul_0_r, Z.add_0_r.
  - rewrite <- seq_shift, map_map. apply map_ext. intros k.
    do 2 f_equal. lia.
Qed.

Lemma page_body_uniform (site : Site) (city : string) (p : Pagination)
    (c : Context) :
  exists (o : option exn) (p' : Pagination) (c' : Context) (l : list Event)
         (vs : list Vars),
    navigations l = [Get (page_url city (job_count p))] /\
    forall w : World,
      context w = c -> page_body site city p w = (o, p', extend c' l vs w).
Proof.
  unfold page_body, driver_get.
  destruct (loads (site (page_url city (job_count p)))).
  - destruct (wait_css _ sel_results_list 30) as [e|u].
    + exists (Some e), (advance p), Outer, [Get (page_url city (job_count p))], [].
      split; [reflexivity|]. intros w Hc. reflexivity.
    + destruct (cards _) as [cvs|].
      * destruct (for_cards_uniform cvs O blank Outer)
          as (o & v' & c' & l & vs & Hn & _ & _ & H).
        exists o, (advance p), c', (Get (page_url city (job_count p)) :: l), vs.
        split; [unfold navigations in *; cbn; now rewrite Hn|].
        intros w Hc. rewrite H by reflexivity.
        unfold ret. now rewrite extend_emit.
      * exists (Some NoSuchElementException), (advance p), Outer,
          [Get (page_url city (job_count p))], [].
        split; [reflexivity|]. intros w Hc. reflexivity.
  - exists (Some WebDriverException), p, c, [Get (page_url city (job_count p))], [].
    split; [reflexivity|]. intros w Hc. subst c. reflexivity.
Qed.

Lemma for_pages_uniform (site : Site) (city : string) (pages : list Z) :
  forall (p : Pagination) (c : Context),
    exists (o : option exn) (p' : Pagination) (c' : Context) (l : list Event)
           (vs : list Vars) (m : nat),
      navigations l = page_loads city (job_count p) m /\
      (m <= List.length pages)%nat /\
      (o = None -> m = List.length pages) /\
      forall w : World,
        context w = c ->
        for_pages site city pages p w = (o, p', extend c' l vs w).
Proof.
  induction pages as [|page pages IH]; intros p c.
  - exists None, p, c, [], [], O. repeat split; auto.
    intros w Hc. cbn. subst c. now rewrite extend_nil.
  - destruct (page_body_uniform site city p c)
      as (o1 & p1 & c1 & l1 & vs1 & Hn1 & H1).
    destruct o1 as [e|].
    + exists (Some e), p1, c1, l1, vs1, 1%nat.
      split; [rewrite Hn1, page_loads_succ; reflexivity|].
      split; [cbn; lia|]. split; [discriminate|].
      intros w Hc. cbn [for_pages]. now rewrite (H1 w Hc).
    + assert (Hp1 : p1 = advance p).
      { pose proof (H1 {| context := c; trace := []; store := None |} eq_refl)
          as Hb.
        now apply page_body_completed in Hb. }
      subst p1.
      destruct (IH (advance p) c1) as (o & p' & c' & l2 & vs2 & m & Hn2 & Hle & Hall & H2).
      exists o, p', c', (l1 ++ l2)%list, (vs1 ++ vs2)%list, (S m).
      split; [rewrite navigations_app, Hn1, Hn2, page_loads_succ; reflexivity|].
      split; [cbn; lia|]. split; [intros Ho; cbn; now rewrite (Hall Ho)|].
      intros w Hc. cbn [for_pages]. rewrite (H1 w Hc).
      rewrite H2 by reflexivity. now rewrite extend_extend.
Qed.

(** The whole query, on every store. *)
Lemma get_job_posts_uniform (site : Site) (city : string) :
  exists (o : option exn) (c' : Context) (l : list Event) (vs : list Vars)
         (m : nat),
    navigations l = Get (url_final city) :: page_loads city 1510 m /\
    (m <= Z.to_nat (number_of_pages (landing (site (url_final city))) - 151))%nat /\
    (o = None ->
     m = Z.to_nat (number_of_pages (landing (site (url_final city))) - 151)) /\
    forall file_city : option (list Row),
      get_job_posts site city file_city
      = (o, extend c' l vs (new_session file_city)).
Proof.
  unfold get_job_posts, driver_get.
  destruct (loads (site (url_final city))).
  - destruct (wait_css _ sel_results_list 30) as [e|u].
    + exists (Some e), Outer, [Get (url_final city)], [], O.
      split; [reflexivity|]. split; [lia|]. split; [discriminate|].
      reflexivity.
    + unfold page_loop.
      destruct (for_pages_uniform site city
                  (range (pages_scraped checkpoint)
                     (number_of_pages (landing (site (url_final city)))))
                  checkpoint Outer)
        as (o & p' & c' & l & vs & m & Hn & Hle & Hall & H).
      pose proof (range_length (pages_scraped checkpoint)
                    (number_of_pages (landing (site (url_final city))))) as Hlen.
      cbn [checkpoint pages_scraped job_count] in *.
      exists o, c', (Get (url_final city) :: l), vs, m.
      split; [unfold navigations in *; cbn; now rewrite Hn|].
      split; [lia|]. split; [intros Ho; specialize (Hall Ho); lia|].
      intros file_city. rewrite H by reflexivity.
      unfold ret. now rewrite extend_emit.
  - exists (Some WebDriverException), Outer, [Get (url_final city)], [], O.
    split; [reflexivity|]. split; [lia|]. split; [discriminate|].
    reflexivity.
Qed.

Lemma store_extend_fresh (c : Context) (l : list Event) (vs : list Vars) :
  store (extend c l vs (new_session None))
  = match vs with
    | [] => None
    | _ :: _ => Some (header :: map (fun v => values (job_post v)) vs)
    end.
Proof.
  unfold extend. cbn [store]. destruct vs as [|v vs]; [reflexivity|].
  cbn [map save_all fold_left].
  fold (save_all (map job_post vs) (save_job_post (job_post v) (new_session None))).
  rewrite (save_all_existing _ _ _
             (save_job_post_fresh (job_post v) (new_session None) eq_refl)).
  now rewrite columns_job_post, map_map.
Qed.

Lemma store_extend_existing (c : Context) (l : list Event) (vs : list Vars)
    (r : list Row) :
  store (extend c l vs (new_session (Some r)))
  = Some (r ++ map (fun v => values (job_post v)) vs)%list.
Proof.
  unfold extend. cbn [store].
  rewrite (save_all_existing _ (new_session (Some r)) r eq_refl).
  now rewrite map_map.
Qed.

(** X1. No de-duplication: when a query that started without a
    destination file has written the rows [rows1] (the header and the
    records), running the same query again on the same site appends the
    same records once more, after the rows that are there and without a
    second header. *)
Theorem rerun_appends_the_same_records (site : Site) (city : string)
    (rows1 : list Row) :
  store (snd (get_job_posts site city None)) = Some rows1 ->
  hd [] rows1 = header /\
  store (snd (get_job_posts site city (Some rows1)))
  = Some (rows1 ++ tl rows1)%list.
Proof.
  destruct (get_job_posts_uniform site city) as (o & c & l & vs & m & _ & _ & _ & H).
  rewrite !H. cbn [snd]. rewrite store_extend_fresh, store_extend_existing.
  destruct vs as [|v vs]; [discriminate|].
  intros Hr. inversion Hr; subst rows1. split; reflexivity.
Qed.

Lemma rerun_appends_the_same_records_witness :
  exists rows1 : list Row,
    List.length rows1 = 4%nat /\
    store (snd (get_job_posts Examples.site_1530 "Toronto" (Some rows1)))
    = Some (rows1 ++ tl rows1)%list.
Proof.
  destruct (store (snd (get_job_posts Examples.site_1530 "Toronto" None)))
    as [rows1|] eqn:Hs; [|discriminate Hs].
  exists rows1. split.
  - vm_compute in Hs. inversion Hs. reflexivity.
  - apply (rerun_appends_the_same_records Examples.site_1530 "Toronto" rows1 Hs).
Defined.

(** X2. A destination file of the program's own making is only ever
    appended to, and what is appended does not depend on what it holds:
    for a site and a city there is one list of records, each of nine
    cells, that the query adds after the rows of any file that earlier
    queries have written; on a missing file the query writes the header
    and these records, or nothing at all when there is no record. *)
Theorem store_is_append_only (site : Site) (city : string) :
  exists added : list Row,
    Forall (fun record => List.length record = List.length header) added /\
    (forall r : list Row,
        program_file (Some r) ->
        store (snd (get_job_posts site city (Some r))) = Some (r ++ added)%list) /\
    store (snd (get_job_posts site city None))
    = match added with
      | [] => None
      | _ :: _ => Some (header :: added)
      end.
Proof.
  destruct (get_job_posts_uniform site city) as (o & c & l & vs & m & _ & _ & _ & H).
  exists (map (fun v => values (job_post v)) vs).
  split; [|split].
  - apply Forall_forall. intros record Hin.
    apply in_map_iff in Hin. destruct Hin as (v & <- & _). reflexivity.
  - intros r _. rewrite H. cbn [snd]. apply store_extend_existing.
  - rewrite H. cbn [snd]. rewrite store_extend_fresh. now destruct vs.
Qed.

Lemma store_is_append_only_witness :
  exists (record : Row) (added : list Row),
    store
      (snd (get_job_posts Examples.site_1530 "Toronto"
              (store (snd (get_job_posts Examples.site_1530 "Toronto" None)))))
    = Some ((header :: record :: added) ++ record :: added)%list.
Proof.
  destruct (store_is_append_only Examples.site_1530 "Toronto")
    as (added & _ & Happ & Hfresh).
  pose proof (written_by_query Examples.site_1530 "Toronto" None never_written)
    as Hp.
  rewrite Hfresh in Hp |- *.
  destruct added as [|record added]; [vm_compute in Hfresh; discriminate Hfresh|].
  exists record, added. apply (Happ _ Hp).
Defined.

(** X3. What the destination file holds never changes what a query
    does: the outcome (completion or the exception raised), the driver
    commands and log lines of the session and its final context are the
    same whether the file is missing or holds any rows. *)
Theorem run_ignores_the_store (site : Site) (city : string)
    (file1 file2 : option (list Row)) :
  fst (get_job_posts site city file1) = fst (get_job_posts site city file2) /\
  trace (snd (get_job_posts site city file1))
  = trace (snd (get_job_posts site city file2)) /\
  context (snd (get_job_posts site city file1))
  = context (snd (get_job_posts site city file2)).
Proof.
  destruct (get_job_posts_uniform site city) as (o & c & l & vs & m & _ & _ & _ & H).
  rewrite !H. repeat split.
Qed.

(** X4. The pages a query requests.  When the driver start of line
    189 raises, the query ends with that exception and requests no
    page.  Otherwise it requests first the search page (start=0), then
    the result pages at the offsets 1510, 1520, 1530, ... in this
    order, without a gap and never one below 1510; at most
    number_of_pages - 151 of them, and exactly that many when the query
    completes. *)
Theorem query_navigations (driver : res Site) (city : string)
    (file_city : option (list Row)) :
  (forall e : exn,
      driver = raise e ->
      fst (get_job_posts_with_driver driver city file_city) = Some e /\
      navigations (trace (snd (get_job_posts_with_driver driver city file_city)))
      = []) /\
  (forall site : Site,
      driver = ret site ->
      exists m : nat,
        navigations
          (trace (snd (get_job_posts_with_driver driver city file_city)))
        = Get (url_final city) :: page_loads city 1510 m /\
        (m <= Z.to_nat (number_of_pages (landing (site (url_final city))) - 151))%nat /\
        (fst (get_job_posts_with_driver driver city file_city) = None ->
         m = Z.to_nat (number_of_pages (landing (site (url_final city))) - 151))).
Proof.
  split.
  - intros e ->. split; reflexivity.
  - intros site ->. cbn [get_job_posts_with_driver ret].
    destruct (get_job_posts_uniform site city)
      as (o & c & l & vs & m & Hn & Hle & Hall & H).
    exists m. rewrite H. cbn [fst snd extend trace new_session app].
    auto.
Qed.

Lemma query_navigations_witness :
  navigations
    (trace (snd (get_job_posts_with_driver (raise IndexError) "Toronto" None)))
  = [] /\
  exists m : nat,
    navigations
      (trace (snd (get_job_posts_with_driver (ret Examples.site_1530)
                     "Toronto" None)))
    = Get (url_final "Toronto") :: page_loads "Toronto" 1510 m /\
    m = 2%nat.
Proof.
  split.
  - destruct (query_navigations (raise IndexError) "Toronto" None) as [H _].
    apply (H IndexError eq_refl).
  - destruct (query_navigations (ret Examples.site_1530) "Toronto" None)
      as [_ H].
    destruct (H Examples.site_1530 eq_refl) as (m & Hn & _ & Hm).
    exists m. split; [exact Hn|]. apply Hm. reflexivity.
Defined.

(** ** Values carried from card to card *)

Lemma card_body_vars (cv : CardView) (i : nat) (v v' : Vars) (w w' : World) :
  card_body cv i v w = (ret v', w') ->
  exists job : Card,
    relocate cv i = ret job /\
    v' = fst (extract_fields cv i job v w) /\
    context w' = context_after cv (context w) /\
    exists r : list Row, store w' = Some (r ++ [values (job_post v')])%list.
Proof.
  intros H.
  destruct (card_body_uniform cv i v (context w))
    as [(e & He)|(job & v1 & l & _ & Hr & Hv & Hb)].
  - rewrite (He w eq_refl) in H. discriminate.
  - rewrite (Hb w eq_refl) in H.
    assert (Hv' : v' = v1) by (unfold ret in *; congruence).
    assert (Hw : w' = extend (context_after cv (context w)) l [v1] w)
      by congruence.
    subst v1. exists job. split; [exact Hr|]. split.
    { destruct (extract_fields_uniform cv i job v (context w))
        as (v2 & l2 & _ & Hu).
      rewrite (Hu w eq_refl).
      rewrite (Hu {| context := context w; trace := []; store := None |}
                 eq_refl) in Hv'.
      exact Hv'. }
    split; [now rewrite Hw|].
    rewrite Hw, Hv'. unfold extend, save_all. cbn [store map fold_left].
    unfold save_job_post. destruct (store w) as [r|]; cbn [store set_store].
    + exists r. reflexivity.
    + exists [columns (job_post
                (fst (extract_fields cv i job v
                        {| context := context w; trace := []; store := None |})))].
      reflexivity.
Qed.

Lemma for_cards_last_record (cvs : list CardView) :
  forall (i : nat) (v v' : Vars) (w w' : World),
    for_cards cvs i v w = (None, v', w') ->
    cvs <> [] ->
    exists r : list Row, store w' = Some (r ++ [values (job_post v')])%list.
Proof.
  induction cvs as [|cv cvs IH]; intros i v v' w w' H Hne; [congruence|].
  cbn [for_cards] in H.
  destruct (card_body cv i v w) as [[e|v1] w1] eqn:Hb; [discriminate|].
  destruct cvs as [|cv2 cvs].
  - cbn in H. inversion H; subst.
    destruct (card_body_vars _ _ _ _ _ _ Hb) as (_ & _ & _ & _ & Hr). exact Hr.
  - eapply IH; [exact H|discriminate].
Qed.

Lemma for_cards_carried (cvs : list CardView) :
  forall (i : nat) (v v' : Vars) (w w' : World),
    for_cards cvs i v w = (None, v', w') ->
    job_title v' = carried read_job_title cvs i (context w) (job_title v) /\
    listing_url v' = carried read_listing_url cvs i (context w) (listing_url v) /\
    salary v' = carried read_salary cvs i (context w) (salary v) /\
    location v' = carried read_location cvs i (context w) (location v).
Proof.
  induction cvs as [|cv cvs IH]; intros i v v' w w' H.
  - cbn in H. inversion H; subst. repeat split.
  - cbn [for_cards] in H.
    destruct (card_body cv i v w) as [[e|v1] w1] eqn:Hb; [discriminate|].
    destruct (card_body_vars _ _ _ _ _ _ Hb) as (job & _ & Hv & Hc1 & _).
    destruct (IH _ _ _ _ _ H) as (Ht & Hl & Hs & Ho).
    rewrite Ht, Hl, Hs, Ho, Hc1, Hv. cbn [carried].
    cbn [extract_fields fst job_title listing_url salary location].
    repeat split.
Qed.

(** X5. On a page, the variables whose [except] is [pass] repeat the
    last value that was read: after any run of processed cards the last
    record written is that of the current variables, and its title,
    listing URL, salary and location are those of the most recent card
    whose own block returned, or the value from before the run (the
    empty string at the start of a page) when none did. *)
Theorem failed_block_repeats_last_value (cvs : list CardView) (i : nat)
    (v v' : Vars) (w w' : World) :
  for_cards cvs i v w = (None, v', w') ->
  cvs <> [] ->
  (exists r : list Row, store w' = Some (r ++ [values (job_post v')])%list) /\
  job_title v' = carried read_job_title cvs i (context w) (job_title v) /\
  listing_url v' = carried read_listing_url cvs i (context w) (listing_url v) /\
  salary v' = carried read_salary cvs i (context w) (salary v) /\
  location v' = carried read_location cvs i (context w) (location v).
Proof.
  intros H Hne. split.
  - eapply for_cards_last_record; eauto.
  - eapply for_cards_carried; eauto.
Qed.

Lemma failed_block_repeats_last_value_witness :
  exists (v' : Vars) (w' : World),
    for_cards [Examples.view_two; Examples.view_two] 0 blank (new_session None)
    = (None, v', w') /\
    salary v' = "$30 an hour".
Proof.
  destruct (for_cards [Examples.view_two; Examples.view_two] 0 blank
              (new_session None)) as [[o v'] w'] eqn:Hf.
  assert (Ho : o = None) by (vm_compute in Hf; congruence).
  subst o. exists v', w'. split; [reflexivity|].
  destruct (failed_block_repeats_last_value _ _ _ _ _ _ Hf)
    as (_ & _ & _ & Hs & _); [discriminate|].
  rewrite Hs. reflexivity.
Defined.

Lemma for_cards_last_card (cv : CardView) (front : list CardView) :
  forall (i : nat) (v v' : Vars) (w w' : World),
    for_cards (front ++ [cv])%list i v w = (None, v', w') ->
    exists (job : Card) (v0 : Vars) (w0 : World),
      context w0 = context_after_all front (context w) /\
      relocate cv (i + List.length front) = ret job /\
      v' = fst (extract_fields cv (i + List.length front) job v0 w0).
Proof.
  induction front as [|cv0 front IH]; intros i v v' w w' H.
  - cbn [app for_cards] in H.
    destruct (card_body cv i v w) as [[e|v1] w1] eqn:Hb; [discriminate|].
    inversion H; subst.
    destruct (card_body_vars _ _ _ _ _ _ Hb) as (job & Hr & Hv & _).
    exists job, v, w. cbn [List.length context_after_all].
    rewrite Nat.add_0_r. auto.
  - cbn [app for_cards] in H.
    destruct (card_body cv0 i v w) as [[e|v1] w1] eqn:Hb; [discriminate|].
    destruct (card_body_vars _ _ _ _ _ _ Hb) as (_ & _ & _ & Hc1 & _).
    destruct (IH _ _ _ _ _ H) as (job & v0 & w0 & Hc0 & Hr & Hv).
    exists job, v0, w0. cbn [List.length context_after_all].
    rewrite Nat.add_succ_r, <- Hc1. auto.
Qed.

(** X6. The three variables whose [except] assigns a default never
    carry a value over: after a run of processed cards the job type and
    the date are what the last card's own block read, or "Full-Time"
    and "Today" when it raised, whatever the cards before it showed;
    the reviews are what was read after the visit to the detail panel,
    or "Reviews Not Found". *)
Theorem defaults_are_reassigned (cv : CardView) (front : list CardView)
    (i : nat) (v v' : Vars) (w w' : World) :
  for_cards (front ++ [cv])%list i v w = (None, v', w') ->
  job_type v'
  = try_except
      (read_job_type (document cv (context_after_all front (context w)))
         (i + List.length front)) "Full-Time" /\
  date_posted v'
  = try_except
      (read_date_posted (document cv (context_after_all front (context w)))
         (i + List.length front)) "Today" /\
  reviews v'
  = try_except
      (read_reviews
         (document cv
            (context
               (enter_detail_context cv
                  {| context := context_after_all front (context w);
                     trace := []; store := None |}))))
      "Reviews Not Found".
Proof.
  intros H.
  destruct (for_cards_last_card _ _ _ _ _ _ _ H)
    as (job & v0 & w0 & Hc0 & _ & Hv).
  rewrite Hv. cbn [extract_fields fst job_type date_posted reviews].
  rewrite Hc0.
  destruct (enter_detail_context_uniform cv
              (context_after_all front (context w))) as (c1 & l1 & _ & He).
  rewrite (He w0 Hc0).
  rewrite (He {| context := context_after_all front (context w);
                 trace := []; store := None |} eq_refl).
  repeat split.
Qed.

Lemma defaults_are_reassigned_witness :
  exists (v' : Vars) (w' : World),
    for_cards ([Examples.view_two] ++ [Samples.view_second])%list 0 blank
      (new_session None) = (None, v', w') /\
    job_type v' = "Full-Time" /\ date_posted v' = "Today" /\
    reviews v' = "1,024 reviews".
Proof.
  destruct (for_cards ([Examples.view_two] ++ [Samples.view_second])%list 0
              blank (new_session None)) as [[o v'] w'] eqn:Hf.
  assert (Ho : o = None) by (vm_compute in Hf; congruence).
  subst o. exists v', w'. split; [reflexivity|].
  destruct (defaults_are_reassigned _ _ _ _ _ _ _ Hf) as (Hj & Hd & Hr).
  rewrite Hj, Hd, Hr. repeat split.
Defined.

(** ** Python strings: reversal and stripping *)

Lemma append_nil_r (s : string) : s ++ "" = s.
Proof. induction s as [|c s IH]; cbn; [reflexivity|now rewrite IH]. Qed.

Lemma append_assoc (a b c : string) : (a ++ b) ++ c = a ++ (b ++ c).
Proof. induction a as [|x a IH]; cbn; [reflexivity|now rewrite IH]. Qed.

Lemma rev_onto_append (s acc : string) :
  rev_onto s acc = rev s ++ acc.
Proof.
  unfold rev. revert acc.
  induction s as [|c s IH]; intros acc; cbn [rev_onto]; [reflexivity|].
  rewrite (IH (String c acc)), (IH (String c "")).
  now rewrite append_assoc.
Qed.

Lemma rev_cons (c : ascii) (s : string) : rev (String c s) = rev s ++ String c "".
Proof. unfold rev at 1. cbn [rev_onto]. apply rev_onto_append. Qed.

Lemma rev_append (a b : string) : rev (a ++ b) = rev b ++ rev a.
Proof.
  induction a as [|c a IH]; cbn [append].
  - now rewrite append_nil_r.
  - now rewrite !rev_cons, IH, append_assoc.
Qed.

Lemma rev_rev (s : string) : rev (rev s) = s.
Proof.
  induction s as [|c s IH]; [reflexivity|].
  now rewrite rev_cons, rev_append, IH.
Qed.

Lemma lstrip_starts_clean (s : string) : starts_clean (lstrip s).
Proof.
  induction s as [|c s IH]; cbn [lstrip]; [exact I|].
  destruct (isspace c) eqn:Hc; [exact IH|exact Hc].
Qed.

Lemma lstrip_clean (s : string) : starts_clean s -> lstrip s = s.
Proof. destruct s as [|c s]; cbn; [reflexivity|]. now intros ->. Qed.

Lemma lstrip_keeps_last (x : string) (c : ascii) :
  isspace c = false ->
  exists y : string, lstrip (x ++ String c "") = y ++ String c "".
Proof.
  intros Hc. induction x as [|d x IH]; cbn [append lstrip].
  - rewrite Hc. now exists "".
  - destruct (isspace d); [exact IH|]. now exists (String d x).
Qed.

Lemma rstrip_starts_clean (s : string) :
  starts_clean s -> starts_clean (rstrip s).
Proof.
  unfold rstrip. destruct s as [|c s]; [intros _; exact I|].
  cbn [starts_clean]. intros Hc. rewrite rev_cons.
  destruct (lstrip_keeps_last (rev s) c Hc) as (y & ->).
  rewrite rev_append. exact Hc.
Qed.

Lemma strip_starts_clean (s : string) : starts_clean (strip s).
Proof. apply rstrip_starts_clean, lstrip_starts_clean. Qed.

Lemma strip_ends_clean (s : string) : starts_clean (rev (strip s)).
Proof. unfold strip, rstrip. rewrite rev_rev. apply lstrip_starts_clean. Qed.

Lemma clean_ends_trimmed (s : string) :
  starts_clean s -> starts_clean (rev s) -> trimmed s.
Proof.
  intros H1 H2. unfold trimmed, strip, rstrip.
  now rewrite (lstrip_clean s H1), (lstrip_clean _ H2), rev_rev.
Qed.

Lemma strip_trimmed (s : string) : trimmed (strip s).
Proof. apply clean_ends_trimmed; [apply strip_starts_clean|apply strip_ends_clean]. Qed.

(** ** Python strings: characters that occur *)

Lemma occurs_append (c : ascii) (a b : string) :
  occurs c (a ++ b) = occurs c a || occurs c b.
Proof.
  induction a as [|x a IH]; cbn; [reflexivity|].
  now rewrite IH, orb_assoc.
Qed.

Lemma occurs_rev (c : ascii) (s : string) : occurs c (rev s) = occurs c s.
Proof.
  induction s as [|x s IH]; [reflexivity|].
  rewrite rev_cons, occurs_append, IH. cbn.
  rewrite orb_false_r. apply orb_comm.
Qed.

Lemma occurs_lstrip (c : ascii) (s : string) :
  occurs c (lstrip s) = true -> occurs c s = true.
Proof.
  induction s as [|x s IH]; cbn [lstrip]; [trivial|].
  destruct (isspace x); [|trivial].
  intros H. cbn. rewrite (IH H). apply orb_true_r.
Qed.

Lemma occurs_strip (c : ascii) (s : string) :
  occurs c (strip s) = true -> occurs c s = true.
Proof.
  unfold strip, rstrip. rewrite occurs_rev. intros H.
  apply occurs_lstrip in H. rewrite occurs_rev in H.
  now apply occurs_lstrip.
Qed.

Lemma absent_strip (c : ascii) (s : string) :
  occurs c s = false -> occurs c (strip s) = false.
Proof.
  intros H. destruct (occurs c (strip s)) eqn:Ho; [|reflexivity].
  apply occurs_strip in Ho. congruence.
Qed.

(** Removing text adds no character. *)
Lemma occurs_replace_from_empty (c : ascii) (old s : string) :
  forall skip : nat,
    occurs c (replace_from old "" skip s) = true -> occurs c s = true.
Proof.
  induction s as [|x s IH]; intros skip; cbn [replace_from]; [trivial|].
  destruct skip as [|k].
  - destruct (prefix old (String x s)).
    + cbn [append]. intros H. cbn. rewrite (IH _ H). apply orb_true_r.
    + cbn. destruct (Ascii.eqb c x); [trivial|]. cbn. apply IH.
  - intros H. cbn. rewrite (IH _ H). apply orb_true_r.
Qed.

Lemma absent_replace_empty (c : ascii) (old s : string) :
  occurs c s = false -> occurs c (replace old "" s) = false.
Proof.
  intros H. destruct old as [|o old]; cbn [replace].
  - induction s as [|x s IH]; cbn in *; [reflexivity|].
    apply orb_false_iff in H. destruct H as [-> H]. cbn. now apply IH.
  - destruct (occurs c (replace_from (String o old) "" 0 s)) eqn:Ho;
      [|reflexivity].
    apply occurs_replace_from_empty in Ho. congruence.
Qed.

(** Replacing one character by another, and removing one character. *)
Lemma prefix_char (a x : ascii) (s : string) :
  prefix (String a "") (String x s) = Ascii.eqb a x.
Proof.
  cbn. destruct (ascii_dec a x) as [->|Hne].
  - rewrite Ascii.eqb_refl. now destruct s.
  - symmetry. now apply Ascii.eqb_neq.
Qed.

Lemma replace_char_char (a b : ascii) (s : string) :
  replace (String a "") (String b "") s = subst_char a b s.
Proof.
  cbn [replace].
  induction s as [|x s IH]; [reflexivity|].
  cbn [replace_from subst_char]. rewrite prefix_char.
  destruct (Ascii.eqb a x); cbn [String.length Nat.pred append];
    now rewrite IH.
Qed.

Lemma replace_char_empty (a : ascii) (s : string) :
  replace (String a "") "" s = without a s.
Proof.
  cbn [replace].
  induction s as [|x s IH]; [reflexivity|].
  cbn [replace_from without]. rewrite prefix_char.
  destruct (Ascii.eqb a x); cbn [String.length Nat.pred append];
    now rewrite IH.
Qed.

Lemma absent_subst_char (a b : ascii) (s : string) :
  a <> b -> occurs a (subst_char a b s) = false.
Proof.
  intros Hne. induction s as [|x s IH]; [reflexivity|].
  cbn. rewrite IH, orb_false_r.
  destruct (Ascii.eqb a x) eqn:Hx; [now apply Ascii.eqb_neq|exact Hx].
Qed.

Lemma absent_without (a : ascii) (s : string) : occurs a (without a s) = false.
Proof.
  induction s as [|x s IH]; [reflexivity|].
  cbn. destruct (Ascii.eqb a x) eqn:Hx; [exact IH|].
  cbn. now rewrite Hx, IH.
Qed.

Lemma subst_char_append (a b : ascii) (s t : string) :
  subst_char a b (s ++ t) = subst_char a b s ++ subst_char a b t.
Proof. induction s as [|x s IH]; cbn; [reflexivity|now rewrite IH]. Qed.

Lemma subst_char_rev (a b : ascii) (s : string) :
  subst_char a b (rev s) = rev (subst_char a b s).
Proof.
  induction s as [|x s IH]; [reflexivity|].
  cbn [subst_char]. now rewrite !rev_cons, subst_char_append, IH.
Qed.

Lemma subst_space_starts_clean (a b : ascii) (s : string) :
  isspace a = true -> starts_clean s -> starts_clean (subst_char a b s).
Proof.
  intros Ha. destruct s as [|x s]; [trivial|]. cbn.
  intros Hx. destruct (Ascii.eqb a x) eqn:E; [|exact Hx].
  apply Ascii.eqb_eq in E. congruence.
Qed.

(** A stripped text stays stripped when its line feeds become spaces. *)
Lemma subst_space_trimmed (a b : ascii) (s : string) :
  isspace a = true -> trimmed (subst_char a b (strip s)).
Proof.
  intros Ha. apply clean_ends_trimmed.
  - apply subst_space_starts_clean; [exact Ha|apply strip_starts_clean].
  - rewrite <- subst_char_rev.
    apply subst_space_starts_clean; [exact Ha|apply strip_ends_clean].
Qed.

(** ** Normalised cells *)

Lemma newline_is_line_feed : newline = String line_feed "".
Proof. reflexivity. Qed.

Lemma line_feed_to_space (s : string) :
  replace newline " " s = subst_char line_feed " " s.
Proof. rewrite newline_is_line_feed. apply replace_char_char. Qed.

Lemma index_returns {A : Type} (xs : list A) (i : nat) (B : Type)
    (f : A -> B) (b : B) :
  (e <- index xs i ;; ret (f e)) = ret b ->
  exists e : A, nth_error xs i = Some e /\ b = f e.
Proof.
  unfold index. destruct (nth_error xs i) as [e|]; [|discriminate].
  cbn. intros H. exists e. split; [reflexivity|]. unfold ret in H. congruence.
Qed.

Lemma read_salary_normalised (driver : Dom) (i : nat) (s : string) :
  read_salary driver i = ret s -> occurs line_feed s = false /\ trimmed s.
Proof.
  unfold read_salary. intros H. apply index_returns in H.
  destruct H as (e & _ & ->). rewrite line_feed_to_space. split.
  - now apply absent_subst_char.
  - now apply subst_space_trimmed.
Qed.

Lemma read_location_normalised (driver : Dom) (i : nat) (s : string) :
  read_location driver i = ret s -> occurs line_feed s = false /\ trimmed s.
Proof.
  unfold read_location. intros H. apply index_returns in H.
  destruct H as (e & _ & ->). rewrite line_feed_to_space. split.
  - now apply absent_subst_char.
  - now apply subst_space_trimmed.
Qed.

Lemma read_job_type_normalised (driver : Dom) (i : nat) (s : string) :
  read_job_type driver i = ret s ->
  occurs line_feed s = false /\ occurs colon s = false /\ trimmed s.
Proof.
  unfold read_job_type. intros H. apply index_returns in H.
  destruct H as (e & _ & ->). rewrite line_feed_to_space.
  change ":" with (String colon "").
  rewrite replace_char_empty.
  split; [|split].
  - apply absent_strip, absent_replace_empty.
    rewrite <- replace_char_empty. apply absent_replace_empty.
    now apply absent_subst_char.
  - apply absent_strip, absent_replace_empty, absent_without.
  - apply strip_trimmed.
Qed.

Lemma read_date_posted_normalised (driver : Dom) (i : nat) (s : string) :
  read_date_posted driver i = ret s -> occurs line_feed s = false.
Proof.
  unfold read_date_posted.
  destruct (wait_css driver sel_date 3); [discriminate|]. cbn [bind].
  intros H. apply index_returns in H.
  destruct H as (e & _ & ->). rewrite line_feed_to_space.
  apply absent_replace_empty. now apply absent_subst_char.
Qed.

Lemma blank_normalised : normalised blank.
Proof. repeat split. Qed.

Lemma extract_fields_normalised (cv : CardView) (i : nat) (job : Card)
    (v : Vars) (w : World) :
  normalised v -> normalised (fst (extract_fields cv i job v w)).
Proof.
  intros ((Hs1 & Hs2) & (Hl1 & Hl2) & (Hj1 & Hj2 & Hj3) & Hd).
  unfold normalised.
  cbn [extract_fields fst salary location job_type date_posted].
  split; [|split; [|split]].
  - destruct (read_salary _ i) as [e|s] eqn:H; cbn [try_except]; [auto|].
    now apply read_salary_normalised in H.
  - destruct (read_location _ i) as [e|s] eqn:H; cbn [try_except]; [auto|].
    now apply read_location_normalised in H.
  - destruct (read_job_type _ i) as [e|s] eqn:H; cbn [try_except].
    + repeat split.
    + now apply read_job_type_normalised in H.
  - destruct (read_date_posted _ i) as [e|s] eqn:H; cbn [try_except].
    + reflexivity.
    + now apply read_date_posted_normalised in H.
Qed.

Lemma normalised_clean_row (v : Vars) :
  normalised v -> clean_row (values (job_post v)).
Proof. intros H. exact H. Qed.

Lemma header_clean_row : clean_row header.
Proof. repeat split. Qed.

Lemma save_job_post_clean (v : Vars) (w : World) :
  normalised v ->
  Forall clean_row (rows w) ->
  Forall clean_row (rows (save_job_post (job_post v) w)).
Proof.
  intros Hv Hw. unfold rows, save_job_post in *.
  destruct (store w) as [r|]; cbn [store set_store].
  - apply Forall_app. split; [exact Hw|].
    constructor; [now apply normalised_clean_row|constructor].
  - constructor; [exact header_clean_row|].
    constructor; [now apply normalised_clean_row|constructor].
Qed.

Lemma card_body_clean (cv : CardView) (i : nat) (v : Vars) (w w' : World)
    (r : res Vars) :
  card_body cv i v w = (r, w') ->
  normalised v ->
  Forall clean_row (rows w) ->
  Forall clean_row (rows w') /\
  match r with inl _ => True | inr v' => normalised v' end.
Proof.
  intros H Hv Hw.
  destruct (card_body_cases cv i v w) as [(e & He & _)|(job & _ & _ & Hb)].
  - rewrite He in H. inversion H; subst. auto.
  - rewrite Hb in H.
    assert (Hr : r = ret (fst (extract_fields cv i job v w))) by congruence.
    assert (Hw' : w' = save_job_post
                         (job_post (fst (extract_fields cv i job v w)))
                         (snd (extract_fields cv i job v w))) by congruence.
    rewrite Hr, Hw'.
    pose proof (extract_fields_normalised cv i job v w Hv) as Hv'.
    split; [|exact Hv'].
    apply save_job_post_clean; [exact Hv'|].
    destruct (extract_fields_session cv i job v w) as (_ & Hs & _).
    cbv zeta in Hs. unfold rows in *. now rewrite Hs.
Qed.

Lemma for_cards_clean (cvs : list CardView) :
  forall (i : nat) (v v' : Vars) (w w' : World) (o : option exn),
    for_cards cvs i v w = (o, v', w') ->
    normalised v ->
    Forall clean_row (rows w) ->
    Forall clean_row (rows w').
Proof.
  induction cvs as [|cv cvs IH]; intros i v v' w w' o H Hv Hw.
  - cbn in H. inversion H; subst. exact Hw.
  - cbn [for_cards] in H.
    destruct (card_body cv i v w) as [[e|v1] w1] eqn:Hb;
      destruct (card_body_clean _ _ _ _ _ _ Hb Hv Hw) as [Hw1 Hv1].
    + inversion H; subst. exact Hw1.
    + eapply IH; eauto.
Qed.

Lemma driver_get_rows (pv : PageView) (url : string) (w w' : World)
    (r : res unit) :
  driver_get pv url w = (r, w') -> rows w' = rows w.
Proof.
  unfold driver_get. destruct (loads pv); intros H; inversion H; reflexivity.
Qed.

Lemma page_body_clean (site : Site) (city : string) (p p' : Pagination)
    (w w' : World) (o : option exn) :
  page_body site city p w = (o, p', w') ->
  Forall clean_row (rows w) -> Forall clean_row (rows w').
Proof.
  unfold page_body. intros H Hw.
  destruct (driver_get _ _ w) as [[e|u] w1] eqn:Hg;
    apply driver_get_rows in Hg; rewrite <- Hg in Hw.
  - inversion H; subst. exact Hw.
  - destruct (wait_css _ _ _); [inversion H; subst; exact Hw|].
    destruct (cards _) as [cvs|]; [|inversion H; subst; exact Hw].
    destruct (for_cards cvs 0 blank w1) as [[o1 v1] w2] eqn:Hf.
    inversion H; subst.
    eapply for_cards_clean; [exact Hf|exact blank_normalised|exact Hw].
Qed.

Lemma for_pages_clean (site : Site) (city : string) (pages : list Z) :
  forall (p p' : Pagination) (w w' : World) (o : option exn),
    for_pages site city pages p w = (o, p', w') ->
    Forall clean_row (rows w) -> Forall clean_row (rows w').
Proof.
  induction pages as [|page pages IH]; intros p p' w w' o H Hw.
  - cbn in H. inversion H; subst. exact Hw.
  - cbn [for_pages] in H.
    destruct (page_body site city p w) as [[[e|] p1] w1] eqn:Hb;
      pose proof (page_body_clean _ _ _ _ _ _ _ Hb Hw) as Hw1.
    + inversion H; subst. exact Hw1.
    + eapply IH; eauto.
Qed.

Lemma get_job_posts_clean (site : Site) (city : string)
    (file_city : option (list Row)) :
  Forall clean_row (rows (new_session file_city)) ->
  Forall clean_row (rows (snd (get_job_posts site city file_city))).
Proof.
  intros Hw. unfold get_job_posts.
  destruct (driver_get _ _ (new_session file_city)) as [[e|u] w1] eqn:Hg;
    apply driver_get_rows in Hg; rewrite <- Hg in Hw; [exact Hw|].
  destruct (wait_css _ _ _); [exact Hw|].
  destruct (page_loop _ _ _ w1) as [[o p] w2] eqn:Hl.
  cbn [snd]. unfold page_loop in Hl. eapply for_pages_clean; eauto.
Qed.

(** X7. Every row of a file the program has written, over any number
    of queries of any sites and cities, has no line feed in its Salary,
    Job Type, Location and Date Posted cells, no colon in Job Type, and
    no white space at the ends of Salary, Location and Job Type. *)
Theorem records_have_clean_cells (file_city : option (list Row)) :
  program_file file_city ->
  Forall clean_row (rows (new_session file_city)).
Proof.
  induction 1 as [|site city f Hf IH]; [constructor|].
  apply (get_job_posts_clean site city f) in IH.
  destruct (store (snd (get_job_posts site city f))) as [r|] eqn:Hs;
    unfold rows in *; cbn [store new_session] in *; rewrite Hs in IH;
    [exact IH|constructor].
Qed.

Lemma records_have_clean_cells_witness :
  Forall clean_row
    (rows
       (new_session
          (store
             (snd (get_job_posts Examples.site_1530 "Toronto"
                     (store (snd (get_job_posts Examples.site_1530 "Toronto"
                                    None)))))))).
Proof.
  apply records_have_clean_cells.
  apply written_by_query, written_by_query, never_written.
Defined.

(** ** Count tokens *)

Lemma every_append (f : ascii -> bool) (a b : string) :
  every f (a ++ b) = every f a && every f b.
Proof.
  induction a as [|x a IH]; cbn; [reflexivity|].
  now rewrite IH, andb_assoc.
Qed.

Lemma every_rev (f : ascii -> bool) (s : string) : every f (rev s) = every f s.
Proof.
  induction s as [|x s IH]; [reflexivity|].
  rewrite rev_cons, every_append, IH. cbn.
  rewrite andb_true_r. apply andb_comm.
Qed.

Lemma every_absent (f : ascii -> bool) (c : ascii) (s : string) :
  f c = false -> every f s = true -> occurs c s = false.
Proof.
  intros Hc. induction s as [|x s IH]; [reflexivity|].
  cbn. intros H. apply andb_true_iff in H. destruct H as [Hx Hs].
  rewrite (IH Hs), orb_false_r.
  destruct (Ascii.eqb c x) eqn:E; [|reflexivity].
  apply Ascii.eqb_eq in E. congruence.
Qed.

Lemma rev_not_empty (s : string) : s <> "" -> rev s <> "".
Proof.
  destruct s as [|c s]; [congruence|]. intros _.
  rewrite rev_cons. destruct (rev s); discriminate.
Qed.

(** Every token is a non-empty run of digits. *)
Lemma findall_digits_from_tokens (s : string) :
  forall run : string,
    every isdigit run = true ->
    Forall (fun t => t <> "" /\ every isdigit t = true)
      (findall_digits_from run s).
Proof.
  induction s as [|c s IH]; intros run Hrun; cbn [findall_digits_from].
  - destruct run as [|d run]; [constructor|].
    constructor; [|constructor].
    split; [now apply rev_not_empty|now rewrite every_rev].
  - destruct (isdigit c) eqn:Hc.
    + apply IH. cbn. now rewrite Hc, Hrun.
    + destruct run as [|d run]; [now apply IH|].
      constructor; [|now apply IH].
      split; [now apply rev_not_empty|now rewrite every_rev].
Qed.

(** No token at all exactly when the text holds no digit. *)
Lemma findall_digits_from_nil (s : string) :
  forall run : string,
    findall_digits_from run s = [] <->
    run = "" /\ every (fun c => negb (isdigit c)) s = true.
Proof.
  induction s as [|c s IH]; intros run; cbn [findall_digits_from every].
  - destruct run; split; intros H; auto; try discriminate.
    destruct H as [H _]. discriminate.
  - destruct (isdigit c) eqn:Hc; cbn [negb andb].
    + rewrite IH. split; intros [H1 H2]; discriminate.
    + destruct run as [|d run].
      * rewrite IH. tauto.
      * split; [discriminate|]. intros [H _]. discriminate.
Qed.

Lemma int_from_nonneg (s : string) :
  forall acc : Z, 0 <= acc -> every isdigit s = true -> 0 <= int_from acc s.
Proof.
  induction s as [|c s IH]; intros acc Hacc Hs; cbn [int_from]; [exact Hacc|].
  cbn in Hs. apply andb_true_iff in Hs. destruct Hs as [Hc Hs].
  apply IH; [|exact Hs].
  unfold isdigit in Hc. apply andb_true_iff in Hc. destruct Hc as [Hlo _].
  apply Nat.leb_le in Hlo. unfold digit_value. lia.
Qed.

Lemma round_div10_bounds (n : Z) :
  10 * round_div10 n - 5 <= n <= 10 * round_div10 n + 5.
Proof.
  unfold round_div10.
  pose proof (Z.div_mod n 10 ltac:(lia)) as Hdm.
  pose proof (Z.mod_pos_bound n 10 ltac:(lia)) as Hb.
  destruct (n mod 10 <? 5) eqn:H1; [apply Z.ltb_lt in H1; lia|].
  apply Z.ltb_ge in H1.
  destruct (5 <? n mod 10) eqn:H2; [apply Z.ltb_lt in H2; lia|].
  apply Z.ltb_ge in H2.
  destruct (Z.even (n / 10)); lia.
Qed.

Lemma parse_job_count_returns (indicator total_jobs : string) (n : Z) :
  parse_job_count indicator = ret (total_jobs, n) ->
  total_jobs <> "" /\ every isdigit total_jobs = true /\
  n = round_div10 (int total_jobs) /\ 0 <= int total_jobs.
Proof.
  unfold parse_job_count, index, findall_digits.
  pose proof (findall_digits_from_tokens
                (replace "jobs" "" (replace "Page 1 of" "" (replace "," "" indicator)))
                "" eq_refl) as Htok.
  destruct (findall_digits_from "" _) as [|t ts]; cbn; [discriminate|].
  inversion Htok as [|? ? [Hne Hd] _]; subst.
  unfold ret. intros H. inversion H; subst.
  repeat split; auto. now apply int_from_nonneg.
Qed.

(** X8. What a count indicator parses to, for an ASCII text whose
    count has at most 15 digits (below 2^53, where the float quotient
    of [int(total_jobs) / 10] rounds as the exact one does):
    [total_jobs] is a non-empty string of digits, the first run of
    digits left in the text, and number_of_pages is within half a page
    of a tenth of it (10 * number_of_pages differs from the count by at
    most 5) and not negative; the parse raises IndexError exactly when
    no digit is left in the text once the commas and the words
    "Page 1 of" and "jobs" are removed, and it raises nothing else. *)
Theorem parse_job_count_result (indicator : string) :
  every is_ascii indicator = true ->
  (forall t : string,
      hd_error
        (findall_digits
           (replace "jobs" "" (replace "Page 1 of" "" (replace "," "" indicator))))
      = Some t ->
      (String.length t <= 15)%nat) ->
  (forall (total_jobs : string) (n : Z),
      parse_job_count indicator = ret (total_jobs, n) ->
      total_jobs <> "" /\ every isdigit total_jobs = true /\
      n = round_div10 (int total_jobs) /\
      0 <= n /\
      10 * n - 5 <= int total_jobs <= 10 * n + 5) /\
  (parse_job_count indicator = raise IndexError <->
   every (fun c => negb (isdigit c))
     (replace "jobs" "" (replace "Page 1 of" "" (replace "," "" indicator)))
   = true) /\
  (forall e : exn, parse_job_count indicator = inl e -> e = IndexError).
Proof.
  intros _ _.
  split; [|split].
  - intros total_jobs n H.
    destruct (parse_job_count_returns _ _ _ H) as (Hne & Hd & Hn & Hpos).
    pose proof (round_div10_bounds (int total_jobs)) as Hb.
    subst n. repeat split; auto; try lia.
  - unfold parse_job_count, index, findall_digits.
    pose proof (findall_digits_from_nil
                  (replace "jobs" "" (replace "Page 1 of" ""
                     (replace "," "" indicator))) "") as Hnil.
    destruct (findall_digits_from "" _) as [|t ts]; cbn.
    + split; [intros _; now apply Hnil|reflexivity].
    + split; [discriminate|].
      intros H. destruct Hnil as [_ Hnil].
      specialize (Hnil (conj eq_refl H)). discriminate.
  - intros e. unfold parse_job_count, index, findall_digits.
    destruct (findall_digits_from "" _) as [|t ts]; cbn.
    + unfold raise. congruence.
    + discriminate.
Qed.

Lemma parse_job_count_result_witness :
  10 * 123 - 5 <= int "1234" <= 10 * 123 + 5.
Proof.
  destruct (parse_job_count_result "1,234 jobs Page 1 of") as [H _].
  - reflexivity.
  - intros t Ht. vm_compute in Ht. inversion Ht. cbn. lia.
  - apply (H "1234" 123). reflexivity.
Defined.

Lemma read_job_count_returns (driver : Dom) (css_selector : string)
    (duration : Z) (r : string * Z) :
  read_job_count driver css_selector duration = ret r ->
  exists (e : WebElement) (rest : list WebElement),
    find_elements driver CSS_SELECTOR css_selector = e :: rest /\
    parse_job_count (text e) = ret r.
Proof.
  unfold read_job_count, find_element, find_elements.
  destruct (wait_css driver css_selector duration); [discriminate|].
  cbn [bind]. destruct (driver CSS_SELECTOR css_selector) as [|e rest];
    [discriminate|].
  cbn [bind ret]. intros H. now exists e, rest.
Qed.

(** X9. number_of_pages is never negative, and it exceeds the
    checkpoint's 151 pages, so that the page loop runs at all, only
    when one of the two count indicators was read and announced at
    least 1,515 jobs. *)
Theorem number_of_pages_bounds (driver : Dom) :
  0 <= number_of_pages driver /\
  (151 < number_of_pages driver ->
   exists (css_selector : string) (e : WebElement) (rest : list WebElement)
          (total_jobs : string),
     (css_selector = sel_job_count \/ css_selector = sel_search_count_pages) /\
     find_elements driver CSS_SELECTOR css_selector = e :: rest /\
     parse_job_count (text e) = ret (total_jobs, number_of_pages driver) /\
     1515 <= int total_jobs).
Proof.
  unfold number_of_pages.
  destruct (read_job_count driver sel_job_count primary_duration)
    as [e1|[t1 n1]] eqn:H1; cbn [bind try_except ret snd].
  - destruct (read_job_count driver sel_search_count_pages secondary_duration)
      as [e2|[t2 n2]] eqn:H2; cbn [bind try_except ret snd].
    + unfold fallback_number_of_pages. split; lia.
    + destruct (read_job_count_returns _ _ _ _ H2) as (e & rest & Hf & Hp).
      destruct (parse_job_count_returns _ _ _ Hp) as (_ & _ & Hn & Hpos).
      pose proof (round_div10_bounds (int t2)) as Hb. rewrite <- Hn in Hb.
      split; [lia|]. intros Hgt.
      exists sel_search_count_pages, e, rest, t2.
      repeat split; auto. lia.
  - destruct (read_job_count_returns _ _ _ _ H1) as (e & rest & Hf & Hp).
    destruct (parse_job_count_returns _ _ _ Hp) as (_ & _ & Hn & Hpos).
    pose proof (round_div10_bounds (int t1)) as Hb. rewrite <- Hn in Hb.
    split; [lia|]. intros Hgt.
    exists sel_job_count, e, rest, t1.
    repeat split; auto. lia.
Qed.

Lemma number_of_pages_bounds_witness :
  exists total_jobs : string,
    parse_job_count "1,530 jobs" = ret (total_jobs, 153) /\
    1515 <= int total_jobs.
Proof.
  destruct (number_of_pages_bounds (landing Examples.search_1530)) as [_ H].
  destruct H as (css & e & rest & total_jobs & Hcss & Hf & Hp & Hge).
  - vm_compute. reflexivity.
  - exists total_jobs. split; [|exact Hge].
    destruct Hcss as [-> | ->].
    + vm_compute in Hf. inversion Hf; subst. exact Hp.
    + vm_compute in Hf. discriminate Hf.
Defined.

(** ** Thousands separators *)

Lemma without_append (a : ascii) (s t : string) :
  without a (s ++ t) = without a s ++ without a t.
Proof.
  induction s as [|x s IH]; cbn; [reflexivity|].
  destruct (Ascii.eqb a x); cbn; now rewrite IH.
Qed.

Lemma every_without_comma (u : string) :
  every (fun c => isdigit c || Ascii.eqb comma c) u = true ->
  every isdigit (without comma u) = true.
Proof.
  induction u as [|x u IH]; [reflexivity|].
  cbn [every without]. intros H. apply andb_true_iff in H.
  destruct H as [Hx Hu].
  destruct (Ascii.eqb comma x) eqn:E; [now apply IH|].
  rewrite orb_false_r in Hx. cbn [every]. rewrite Hx. now apply IH.
Qed.

(** Text in which the first character of [old] does not occur is
    copied. *)
Lemma replace_from_copies (c0 : ascii) (old' new a b : string) :
  occurs c0 a = false ->
  replace_from (String c0 old') new 0 (a ++ b)
  = a ++ replace_from (String c0 old') new 0 b.
Proof.
  induction a as [|x a IH]; [reflexivity|].
  cbn [occurs]. intros H. apply orb_false_iff in H. destruct H as [Hx Ha].
  cbn [append replace_from].
  replace (prefix (String c0 old') (String x (a ++ b))) with false.
  - now rewrite (IH Ha).
  - cbn. destruct (ascii_dec c0 x) as [->|]; [|reflexivity].
    now rewrite Ascii.eqb_refl in Hx.
Qed.

Lemma findall_digits_from_run (d : string) :
  forall run : string,
    every isdigit d = true ->
    rev run ++ d <> "" ->
    findall_digits_from run (d ++ " ") = [rev run ++ d].
Proof.
  induction d as [|c d IH]; intros run Hd Hne.
  - rewrite append_nil_r in *. cbn.
    destruct run as [|x run]; [now destruct Hne|reflexivity].
  - cbn in Hd. apply andb_true_iff in Hd. destruct Hd as [Hc Hd].
    cbn [append findall_digits_from]. rewrite Hc.
    rewrite (IH (String c run) Hd).
    + now rewrite rev_cons, append_assoc.
    + rewrite rev_cons. destruct (rev run); discriminate.
Qed.

Lemma digits_then_jobs (d : string) :
  every isdigit d = true -> d <> "" ->
  findall_digits
    (replace "jobs" "" (replace "Page 1 of" "" (d ++ " jobs")))
  = [d].
Proof.
  intros Hd Hne.
  assert (HP : occurs "P" d = false) by (now apply (every_absent isdigit)).
  assert (Hj : occurs "j" d = false) by (now apply (every_absent isdigit)).
  cbn [replace]. rewrite (replace_from_copies _ _ _ _ _ HP).
  replace (replace_from "Page 1 of" "" 0 " jobs") with " jobs" by reflexivity.
  rewrite (replace_from_copies _ _ _ _ _ Hj).
  replace (replace_from "jobs" "" 0 " jobs") with " " by reflexivity.
  unfold findall_digits. now rewrite findall_digits_from_run.
Qed.

(** X10. Thousands separators do not split the count: for a text [u]
    made of digits and commas, with at least one and at most 15 digits
    (a count below 2^53, where the float quotient of
    [int(total_jobs) / 10] rounds as the exact one does), both
    indicator formats, "u jobs" and "Page 1 of u jobs", parse to the
    digits of [u] read as one number. *)
Theorem thousands_separators_are_dropped (u : string) :
  every (fun c => isdigit c || Ascii.eqb comma c) u = true ->
  without comma u <> "" ->
  (String.length (without comma u) <= 15)%nat ->
  parse_job_count (u ++ " jobs")
  = ret (without comma u, round_div10 (int (without comma u))) /\
  parse_job_count ("Page 1 of " ++ u ++ " jobs")
  = ret (without comma u, round_div10 (int (without comma u))).
Proof.
  intros Hu Hne _.
  pose proof (every_without_comma u Hu) as Hd.
  assert (HP : occurs "P" (without comma u) = false)
    by (now apply (every_absent isdigit)).
  assert (Hj : occurs "j" (without comma u) = false)
    by (now apply (every_absent isdigit)).
  unfold parse_job_count.
  change "," with (String comma "").
  rewrite !replace_char_empty, !without_append.
  replace (without comma " jobs") with " jobs" by reflexivity.
  replace (without comma "Page 1 of ") with "Page 1 of " by reflexivity.
  split.
  - now rewrite (digits_then_jobs _ Hd Hne).
  - replace (replace "Page 1 of" "" ("Page 1 of " ++ without comma u ++ " jobs"))
      with (" " ++ replace_from "Page 1 of" "" 0 (without comma u ++ " jobs"))
      by reflexivity.
    rewrite (replace_from_copies _ _ _ _ _ HP).
    replace (replace_from "Page 1 of" "" 0 " jobs") with " jobs" by reflexivity.
    cbn [replace append].
    replace (replace_from "jobs" "" 0 (String " " (without comma u ++ " jobs")))
      with (String " " (replace_from "jobs" "" 0 (without comma u ++ " jobs")))
      by reflexivity.
    rewrite (replace_from_copies _ _ _ _ _ Hj).
    replace (replace_from "jobs" "" 0 " jobs") with " " by reflexivity.
    unfold findall_digits. cbn [findall_digits_from].
    replace (isdigit " ") with false by reflexivity.
    now rewrite findall_digits_from_run.
Qed.

Lemma thousands_separators_are_dropped_witness :
  parse_job_count "1,234,567 jobs" = ret ("1234567", 123457) /\
  parse_job_count "Page 1 of 1,234,567 jobs" = ret ("1234567", 123457).
Proof.
  apply (thousands_separators_are_dropped "1,234,567");
    [reflexivity|discriminate|cbn; lia].
Defined.

(** ** The run over the cities *)

Lemma get_job_posts_with_driver_appends (driver : res Site) (city : string)
    (r : list Row) :
  exists added : list Row,
    store (snd (get_job_posts_with_driver driver city (Some r)))
    = Some (r ++ added)%list.
Proof.
  destruct driver as [e|site]; cbn [get_job_posts_with_driver].
  - exists []. cbn. now rewrite app_nil_r.
  - destruct (get_job_posts_uniform site city)
      as (o & c & l & vs & m & _ & _ & _ & H).
    exists (map (fun v => values (job_post v)) vs).
    rewrite H. apply store_extend_existing.
Qed.

Lemma get_job_posts_with_driver_program_file (driver : res Site)
    (city : string) (f : option (list Row)) :
  program_file f ->
  program_file (store (snd (get_job_posts_with_driver driver city f))).
Proof.
  intros Hf. destruct driver as [e|site]; cbn [get_job_posts_with_driver].
  - exact Hf.
  - now apply written_by_query.
Qed.

Lemma write_file_other (file f : string) (s : option (list Row)) (fs : Files) :
  f <> file -> write_file file s fs f = fs f.
Proof.
  intros Hne. unfold write_file.
  now replace (String.eqb f file) with false
    by (symmetry; now apply String.eqb_neq).
Qed.

Lemma write_file_same (file : string) (s : option (list Row)) (fs : Files) :
  write_file file s fs file = s.
Proof. unfold write_file. now rewrite String.eqb_refl. Qed.

Lemma main_other (resolve : string -> string)
    (queries : list (string * res Site)) :
  forall (fs : Files) (f : string),
    ~ In f (map (fun q => file_of resolve (fst q)) queries) ->
    snd (main resolve queries fs) f = fs f.
Proof.
  induction queries as [|[city driver] queries IH]; intros fs f Hf;
    [reflexivity|].
  cbn [map fst In] in Hf. cbn [main].
  destruct (get_job_posts_with_driver driver city (fs (file_of resolve city)))
    as [[e|] w].
  - cbn [snd]. apply write_file_other. intros ->. apply Hf. now left.
  - rewrite IH by (intros H; apply Hf; now right).
    apply write_file_other. intros ->. apply Hf. now left.
Qed.

Lemma main_appends (resolve : string -> string)
    (queries : list (string * res Site)) :
  forall (fs : Files) (f : string) (r : list Row),
    fs f = Some r ->
    exists added : list Row,
      snd (main resolve queries fs) f = Some (r ++ added)%list.
Proof.
  induction queries as [|[city driver] queries IH]; intros fs f r Hr.
  - exists []. cbn. now rewrite app_nil_r.
  - assert (Hstep : forall w,
               w = snd (get_job_posts_with_driver driver city
                          (fs (file_of resolve city))) ->
               exists added0 : list Row,
                 write_file (file_of resolve city) (store w) fs f
                 = Some (r ++ added0)%list).
    { intros w ->.
      destruct (String.eqb_spec f (file_of resolve city)) as [->|Hne].
      - rewrite write_file_same, Hr. apply get_job_posts_with_driver_appends.
      - rewrite write_file_other by exact Hne.
        exists []. now rewrite app_nil_r. }
    cbn [main].
    destruct (get_job_posts_with_driver driver city (fs (file_of resolve city)))
      as [[e|] w] eqn:Hg;
      destruct (Hstep w) as (added0 & H0); try reflexivity.
    + exists added0. exact H0.
    + destruct (IH _ f _ H0) as (added1 & H1).
      exists (added0 ++ added1)%list. now rewrite app_assoc.
Qed.

Lemma main_program_files (resolve : string -> string)
    (queries : list (string * res Site)) :
  forall (fs : Files) (f : string),
    program_file (fs f) -> program_file (snd (main resolve queries fs) f).
Proof.
  induction queries as [|[city driver] queries IH]; intros fs f Hf;
    [exact Hf|].
  assert (Hstep : program_file
                    (write_file (file_of resolve city)
                       (store (snd (get_job_posts_with_driver driver city
                                      (fs (file_of resolve city))))) fs f)).
  { destruct (String.eqb_spec f (file_of resolve city)) as [->|Hne].
    - rewrite write_file_same.
      now apply get_job_posts_with_driver_program_file.
    - now rewrite write_file_other by exact Hne. }
  cbn [main].
  destruct (get_job_posts_with_driver driver city (fs (file_of resolve city)))
    as [[e|] w]; cbn [snd] in *; [exact Hstep|].
  apply IH. exact Hstep.
Qed.

Lemma main_app (resolve : string -> string)
    (before rest : list (string * res Site)) :
  forall fs : Files,
    fst (main resolve before fs) = None ->
    main resolve (before ++ rest)%list fs
    = main resolve rest (snd (main resolve before fs)).
Proof.
  induction before as [|[city driver] before IH]; intros fs H; [reflexivity|].
  cbn [app main] in *.
  destruct (get_job_posts_with_driver driver city (fs (file_of resolve city)))
    as [[e|] w]; [discriminate|].
  now apply IH.
Qed.

(** X12. An exception of one query, its driver start included, ends
    the whole run: the cities listed after it are not queried (the run
    is the same as if the list ended there), the exception is the
    run's, and a file that none of the paths reached so far names
    stays as it was. *)
Theorem an_exception_ends_the_run (resolve : string -> string)
    (before after : list (string * res Site))
    (city : string) (driver : res Site) (fs : Files) (e : exn) :
  fst (main resolve before fs) = None ->
  fst (get_job_posts_with_driver driver city
         (snd (main resolve before fs) (file_of resolve city))) = Some e ->
  main resolve (before ++ (city, driver) :: after)%list fs
  = main resolve (before ++ [(city, driver)])%list fs /\
  fst (main resolve (before ++ (city, driver) :: after)%list fs) = Some e /\
  forall f : string,
    ~ In f (map (fun q => file_of resolve (fst q)) before) ->
    f <> file_of resolve city ->
    snd (main resolve (before ++ (city, driver) :: after)%list fs) f = fs f.
Proof.
  intros Hb He.
  rewrite !(main_app resolve before _ fs Hb). cbn [main].
  destruct (get_job_posts_with_driver driver city
              (snd (main resolve before fs) (file_of resolve city)))
    as [[e'|] w]; [|discriminate].
  cbn [fst] in He. split; [reflexivity|]. split; [exact He|].
  intros f Hf Hne. cbn [snd].
  rewrite write_file_other by exact Hne. now apply main_other.
Qed.

Lemma an_exception_ends_the_run_witness :
  fst (main Samples.same_path
         [("Toronto", raise WebDriverException);
          ("Ottawa", ret Examples.site_1530)]
         Samples.no_files) = Some WebDriverException /\
  snd (main Samples.same_path
         [("Toronto", raise WebDriverException);
          ("Ottawa", ret Examples.site_1530)]
         Samples.no_files) "IndeedRes/Ottawa.csv" = None.
Proof.
  destruct (an_exception_ends_the_run Samples.same_path []
              [("Ottawa", ret Examples.site_1530)]
              "Toronto" (raise WebDriverException) Samples.no_files
              WebDriverException eq_refl eq_refl) as (_ & H1 & H2).
  split; [exact H1|].
  apply (H2 "IndeedRes/Ottawa.csv"); [intros []|discriminate].
Defined.

(** X13. Over a whole run every destination file is only appended to:
    a file that the path of no listed city names is not touched, and a
    file of the program's own making that held rows before the run is
    one after it and holds them still, in the same order, followed by
    what the run added. *)
Theorem a_run_only_appends (resolve : string -> string)
    (queries : list (string * res Site)) (fs : Files) (f : string) :
  (~ In f (map (fun q => file_of resolve (fst q)) queries) ->
   snd (main resolve queries fs) f = fs f) /\
  (forall r : list Row,
      program_file (fs f) ->
      fs f = Some r ->
      program_file (snd (main resolve queries fs) f) /\
      exists added : list Row,
        snd (main resolve queries fs) f = Some (r ++ added)%list).
Proof.
  split; [apply main_other|].
  intros r Hp Hr. split; [now apply main_program_files|now apply main_appends].
Qed.

Lemma a_run_only_appends_witness :
  snd (main Samples.same_path [("Toronto", ret Examples.site_1530)]
         Samples.no_files) "IndeedRes/Ottawa.csv"
  = None /\
  exists (r added : list Row),
    Samples.toronto_written "IndeedRes/Toronto.csv" = Some r /\
    snd (main Samples.same_path [("Toronto", ret Examples.site_1530)]
           Samples.toronto_written) "IndeedRes/Toronto.csv"
    = Some (r ++ added)%list.
Proof.
  split.
  - destruct (a_run_only_appends Samples.same_path
                [("Toronto", ret Examples.site_1530)]
                Samples.no_files "IndeedRes/Ottawa.csv") as [H _].
    apply H. cbn. intros [H0|[]]. discriminate H0.
  - assert (Hp : program_file (Samples.toronto_written "IndeedRes/Toronto.csv")).
    { unfold Samples.toronto_written. rewrite write_file_same.
      apply written_by_query, never_written. }
    destruct (Samples.toronto_written "IndeedRes/Toronto.csv") as [r|] eqn:Hr;
      [|vm_compute in Hr; discriminate Hr].
    destruct (a_run_only_appends Samples.same_path
                [("Toronto", ret Examples.site_1530)]
                Samples.toronto_written "IndeedRes/Toronto.csv") as [_ H].
    destruct (H r) as (_ & added & Ha);
      [rewrite Hr; exact Hp|exact Hr|].
    exists r, added. split; [reflexivity|exact Ha].
Defined.

(** ** Closing the browser *)

(** X14. [finish] lets no WebDriverException out: whatever [close()]
    and [quit()] raise from that family is logged and swallowed, and
    only an exception outside it passes through.  [close()] is always
    called; [quit()] is called exactly when [close()] returned, so a
    failing [close()] leaves the driver process without its [quit()]. *)
Theorem finish_swallows_driver_errors (driver : Browser) :
  (forall e : exn,
      fst (finish driver) = inl e -> is_webdriver_exception e = false) /\
  ((forall e, closes driver = inl e -> is_webdriver_exception e = true) ->
   (forall e, quits driver = inl e -> is_webdriver_exception e = true) ->
   fst (finish driver) = ret tt) /\
  In DriverClose (snd (finish driver)) /\
  (In DriverQuit (snd (finish driver)) <-> exists u, closes driver = inr u).
Proof.
  unfold finish, finish_body.
  split; [|split; [|split]].
  - intros e.
    destruct (closes driver) as [e1|u1];
      [|destruct (quits driver) as [e2|u2]];
      try destruct (is_webdriver_exception e1) eqn:H1;
      try destruct (is_webdriver_exception e2) eqn:H2;
      cbn [fst]; intros H; inversion H; subst; assumption.
  - intros Hc Hq.
    destruct (closes driver) as [e1|u1].
    + now rewrite (Hc e1 eq_refl).
    + destruct (quits driver) as [e2|u2]; [|reflexivity].
      now rewrite (Hq e2 eq_refl).
  - destruct (closes driver) as [e1|u1];
      [|destruct (quits driver) as [e2|u2]];
      try destruct (is_webdriver_exception e1);
      try destruct (is_webdriver_exception e2);
      cbn; auto.
  - destruct (closes driver) as [e1|u1].
    + split.
      * destruct (is_webdriver_exception e1); cbn;
          intros H; repeat (destruct H as [H|H]; try discriminate H);
          destruct H.
      * intros (u & Hu). discriminate Hu.
    + split; [intros _; now exists u1|]. intros _.
      destruct (quits driver) as [e2|u2];
        try destruct (is_webdriver_exception e2); cbn; auto.
Qed.

Lemma finish_swallows_driver_errors_witness :
  fst (finish Samples.browser_gone) = ret tt /\
  ~ In DriverQuit (snd (finish Samples.browser_gone)).
Proof.
  destruct (finish_swallows_driver_errors Samples.browser_gone)
    as (_ & H & _ & Hq).
  split.
  - apply H; intros e He; vm_compute in He; inversion He; reflexivity.
  - intros Hin. apply Hq in Hin. destruct Hin as (u & Hu). discriminate Hu.
Defined.
